(* ===================================================================== *)
(* tools/deletebyquery/deletebyquery.py                                   *)
(*                                                                       *)
(* A shallow embedding of the delete-by-query tool: the cursor paginator *)
(* (do_solr_query), the confirmation gate (check_query, confirm_delete), *)
(* the dual-store deleter (do_delete, delete_from_cassandra,             *)
(* delete_from_solr) and the coordinator (delete_by_query).              *)
(*                                                                       *)
(* The tool talks to an index (Solr), a row store (Cassandra), the       *)
(* operator's terminal and the logger.  These are kept outside the       *)
(* program: the index and the row-store driver are parameters, the       *)
(* terminal is the list of lines still to be typed, and everything the   *)
(* program does to the outside is appended to a trace.                   *)
(* ===================================================================== *)

From Stdlib Require Import ZArith Lia Ascii.
From stdpp Require Import base option list strings sorting gmap fin_maps.

Local Open Scope string_scope.
Local Open Scope list_scope.
Local Open Scope Z_scope.

(* --------------------------------------------------------------------- *)
(* Data                                                                   *)
(* --------------------------------------------------------------------- *)

(** A value of a request parameter: the tool passes strings (q, fl, fq,
    sort, cursorMark) and one integer (rows). *)
Inductive pvalue :=
| PStr (s : string)
| PInt (z : Z).

#[global] Instance pvalue_eq_dec : EqDecision pvalue.
Proof. solve_decision. Defined.

(** A field of a document of a search response.  Only strings are looked
    at closely; any other JSON value is carried with its str() text. *)
Inductive jvalue :=
| JStr (s : string)
| JOther (repr : string).

#[global] Instance jvalue_eq_dec : EqDecision jvalue.
Proof. solve_decision. Defined.

(** str(v), as used by the % formatting of the sample query. *)
Definition py_str (v : jvalue) : string :=
  match v with
  | JStr s => s
  | JOther r => r
  end.

(** A Record ID: the 128-bit integer of a uuid.UUID. *)
Abbreviation uuid := Z (only parsing).

(** SearchOptions: the common parameters, a dictionary from the name of a
    parameter to the values given to it. *)
Record SearchOptions := { commonparams : gmap string (list pvalue) }.

(** result.response.numFound, result.response.docs and the optional
    result.nextCursorMark of a search response. *)
Record SolrResult := {
  numFound : Z;
  docs : list (gmap string jvalue);
  nextCursorMark : option string
}.

Inductive exn :=
| AttributeError
| KeyError (key : string)
| ValueError
| IndexError
| EOFError
| RuntimeError (msg : string)
| DriverError (msg : string).

Inductive level := INFO | WARNING.

(** The texts handed to the logger; a constructor stands for the format
    string of the source and its arguments for the values it is filled
    with. *)
Inductive message :=
| MsgCollecting                               (* "Collecting tiles ...." *)
| MsgDeleted (ids : list uuid)                (* "Deleted tile IDs %s" *)
| MsgExiting                                  (* "Exiting" *)
| MsgNoResults                                (* "Query returned 0 results" *)
| MsgDocument (d : gmap string jvalue)        (* json.dumps(doc, indent=2) *)
| MsgCassandraDelete                          (* "Executing Cassandra delete..." *)
| MsgSolrDelete                               (* "Executing Solr delete..." *)
| MsgCouldNotDelete (result : string).        (* "Could not delete tile %s" *)

(** The two questions put to the operator. *)
Inductive prompt :=
| AskContinue (num_found : Z)   (* "Query found %s matching documents. Continue? [y]/n/(s)ample: " *)
| AskDelete (num_found : nat).  (* "This action will delete %s record(s) from SOLR and Cassandra. ..." *)

(** What the program does to the outside, in the order it does it. *)
Inductive event :=
| EvSearch (q : SearchOptions) (r : SolrResult)      (* solr_collection.search(q), and its answer *)
| EvInput (p : prompt)                               (* input(p) *)
| EvLog (l : level) (m : message)                    (* logging.info / logging.warning *)
| EvPrepare (statement : string)                     (* cassandra_session.prepare *)
| EvExecuteConcurrent (statement : string) (params : list uuid)
| EvSolrDelete (q : SearchOptions) (commit : bool)   (* solr_collection.delete(q, commit=...) *)
| EvSolrCommit.                                      (* solr_collection.commit() *)

(** The command line, as far as delete_by_query reads it. *)
Record Args := {
  args_query : option string;
  args_jsonparams : option string;
  args_filterquery : option (list string);
  args_rows : Z
}.

(* --------------------------------------------------------------------- *)
(* CommonParams                                                           *)
(* --------------------------------------------------------------------- *)

Module CommonParams.

(** The parameters of solrcloudpy keep, for each name, the values given
    to it.  Every setter adds its argument to the values of one
    parameter; remove_param forgets a parameter.  The library keeps the
    values of a parameter as a set; here they are listed in the order
    they were given, and a value given twice would be listed twice.
    What is proved below of a request only relies on this: after
    remove_param and add_params the cursorMark has the one value just
    given, and the other parameters are as they were. *)
Definition add_value (name : string) (v : pvalue) (se : SearchOptions) : SearchOptions :=
  {| commonparams := <[name := default [] (commonparams se !! name) ++ [v]]> (commonparams se) |}.

Definition q (query : string) := add_value "q" (PStr query).
Definition fl (field : string) := add_value "fl" (PStr field).
Definition fq (query : string) := add_value "fq" (PStr query).
Definition sort (criteria : string) := add_value "sort" (PStr criteria).
Definition rows (r : Z) := add_value "rows" (PInt r).

Definition remove_param (name : string) (se : SearchOptions) : SearchOptions :=
  {| commonparams := delete name (commonparams se) |}.

Definition add_params (name : string) (v : string) := add_value name (PStr v).

Definition get (name : string) (se : SearchOptions) : option (list pvalue) :=
  commonparams se !! name.

End CommonParams.

(** SearchOptions() *)
Definition new_SearchOptions : SearchOptions := {| commonparams := ∅ |}.

(* --------------------------------------------------------------------- *)
(* The world and the monad of the program                                 *)
(* --------------------------------------------------------------------- *)

Section World.

(** The state of the index, whatever it is. *)
Context {SolrState : Type}.

Record World := {
  solr : SolrState;        (* the index *)
  stdin : list string;     (* the lines the operator will type *)
  rng : list nat;          (* the draws of the random generator *)
  trace : list event       (* what was done so far, oldest first *)
}.

(** A run ends with a value, with an exception, or is cut off when the
    fuel given to its loops is used up. *)
Inductive outcome (A : Type) :=
| Ok (a : A) (w : World)
| Raised (e : exn) (w : World)
| OutOfFuel.

Definition M (A : Type) : Type := World -> outcome A.

Definition ret {A} (a : A) : M A := fun w => Ok A a w.

Definition bind {A B} (m : M A) (k : A -> M B) : M B :=
  fun w =>
    match m w with
    | Ok _ a w' => k a w'
    | Raised _ e w' => Raised B e w'
    | OutOfFuel _ => OutOfFuel B
    end.

Definition raise {A} (e : exn) : M A := fun w => Raised A e w.

Definition out_of_fuel {A} : M A := fun _ => OutOfFuel A.

(** A computation that only returns or raises. *)
Definition lift {A} (r : exn + A) : M A :=
  match r with
  | inl e => raise e
  | inr a => ret a
  end.

Definition emit (e : event) : M unit :=
  fun w => Ok unit tt {| solr := solr w; stdin := stdin w; rng := rng w;
                         trace := trace w ++ [e] |}.

(** A world with more events in its trace. *)
Definition logged (w : World) (evs : list event) : World :=
  {| solr := solr w; stdin := stdin w; rng := rng w; trace := trace w ++ evs |}.

End World.

Arguments World : clear implicits.
Arguments outcome : clear implicits.
Arguments M : clear implicits.
Arguments Ok {SolrState A} a w.
Arguments Raised {SolrState A} e w.
Arguments OutOfFuel {SolrState A}.

Notation "'do' x <- m ; k" := (bind m (fun x => k))
  (at level 10, x name, m at level 100, k at level 200).
Notation "'do' ' p <- m ; k" := (bind m (fun x => match x with p => k end))
  (at level 10, p pattern, m at level 100, k at level 200).
Notation "m ;; k" := (bind m (fun _ => k))
  (at level 100, k at level 200, right associativity).

(* --------------------------------------------------------------------- *)
(* Two indexes to run the program against                                 *)
(* --------------------------------------------------------------------- *)

(** An index that answers from a script: the n-th request gets the n-th
    response, whatever is asked; once the script is over, responses are
    empty and carry no cursor mark. *)
Module Scripted.

Definition no_response : SolrResult :=
  {| numFound := 0; docs := []; nextCursorMark := None |}.

Definition solr_search (script : list SolrResult) (_ : SearchOptions)
  : SolrResult * list SolrResult :=
  (hd no_response script, tl script).

End Scripted.

(** An index over a result set that does not change, with the cursor
    paging of the search API: a request that carries a cursor mark and
    sorts by the unique key gets the next rows documents after the mark
    and the mark of the last one of them, or its own mark back when no
    document is left. *)
Module StableIndex.

Section Index.

(** The unique key field of the collection. *)
Variable unique_key : string.

(** The documents that match the query. *)
Variable index : list (gmap string jvalue).

Definition key_of (d : gmap string jvalue) : string :=
  match d !! unique_key with
  | Some v => py_str v
  | None => ""
  end.

(** a comes before b in the order of the unique key. *)
Definition key_lt (a b : gmap string jvalue) : Prop :=
  String.ltb (key_of a) (key_of b) = true.

(** The mark that stands for the position just after key k. *)
Definition mark_after (k : string) : string := String ">"%char k.

Definition key_of_mark (mark : string) : string :=
  match mark with
  | String _ k => k
  | EmptyString => ""
  end.

(** The documents that come after a mark. *)
Definition after (mark : string) : list (gmap string jvalue) :=
  if bool_decide (mark = "*") then index
  else List.filter (fun d => String.ltb (key_of_mark mark) (key_of d)) index.

Definition rows_of (query : SearchOptions) : nat :=
  match CommonParams.get "rows" query with
  | Some [PInt r] => Z.to_nat r
  | _ => 10%nat
  end.

Definition error_response : SolrResult :=
  {| numFound := 0; docs := []; nextCursorMark := None |}.

Definition respond (query : SearchOptions) : SolrResult :=
  match CommonParams.get "cursorMark" query with
  | None =>
      {| numFound := Z.of_nat (length index);
         docs := take (rows_of query) index;
         nextCursorMark := None |}
  | Some [PStr mark] =>
      if bool_decide (CommonParams.get "sort" query = Some [PStr (unique_key +:+ " asc")]) then
        let page := take (rows_of query) (after mark) in
        {| numFound := Z.of_nat (length index);
           docs := page;
           nextCursorMark := Some (match last page with
                                   | Some d => mark_after (key_of d)
                                   | None => mark
                                   end) |}
      else error_response
  | Some _ => error_response
  end.

Definition solr_search (_ : unit) (query : SearchOptions) : SolrResult * unit :=
  (respond query, tt).

End Index.

End StableIndex.

(** A reading of the 8-4-4-4-12 hexadecimal text of a UUID, to run the
    program on written-out identifiers: the hyphens are dropped and 32
    hexadecimal digits are read.  uuid.UUID also takes off braces and
    the prefixes urn: and uuid:; the identifiers of the runs below have
    none.  The theorems hold for any reading of a text as a UUID. *)
Module Hex.

Definition digit (c : ascii) : option Z :=
  let n := Z.of_N (N_of_ascii c) in
  if (48 <=? n) && (n <=? 57) then Some (n - 48)
  else if (97 <=? n) && (n <=? 102) then Some (n - 87)
  else if (65 <=? n) && (n <=? 70) then Some (n - 55)
  else None.

Fixpoint value (s : string) (acc : Z) : option Z :=
  match s with
  | EmptyString => Some acc
  | String c s' =>
      match digit c with
      | Some d => value s' (16 * acc + d)
      | None => None
      end
  end.

Fixpoint without_hyphens (s : string) : string :=
  match s with
  | EmptyString => EmptyString
  | String c s' =>
      if bool_decide (c = "-"%char) then without_hyphens s'
      else String c (without_hyphens s')
  end.

Definition UUID (s : string) : option uuid :=
  let hex := without_hyphens s in
  if bool_decide (String.length hex = 32%nat) then value hex 0 else None.

End Hex.

(** The documents the searches of a trace brought back, in order. *)
Definition fetched (t : list event) : list (gmap string jvalue) :=
  flat_map (fun e : event => match e with EvSearch _ r => docs r | _ => [] end) t.

(** The number of pages of at most rows documents that n documents
    fill. *)
Definition pages_needed (n rows : nat) : nat := (n + rows - 1) / rows.

(** The calls that delete: to the row store and to the index. *)
Definition is_deletion (e : event) : bool :=
  match e with
  | EvPrepare _ | EvExecuteConcurrent _ _ | EvSolrDelete _ _ | EvSolrCommit => true
  | _ => false
  end.

(* --------------------------------------------------------------------- *)
(* A collection of three tiles, to run the program on                     *)
(* --------------------------------------------------------------------- *)

Module Example.

Definition tile (id : string) : gmap string jvalue := {[ "id" := JStr id ]}.

Definition tileA := tile "00000000-0000-0000-0000-00000000000a".
Definition tileB := tile "00000000-0000-0000-0000-00000000000b".
Definition tileC := tile "00000000-0000-0000-0000-00000000000c".

(** A document whose id is not the text of a UUID. *)
Definition broken := tile "tile-17".

Definition index := [tileA; tileB; tileC].

(** --query '*:*' --solr-rows 2 *)
Definition args : Args :=
  {| args_query := Some "*:*"; args_jsonparams := None;
     args_filterquery := None; args_rows := 2 |}.

(** The query delete_by_query builds from args, with the id field as
    unique key. *)
Definition query : SearchOptions :=
  CommonParams.rows 2
    (CommonParams.fl "id" (CommonParams.fl "id" (CommonParams.q "*:*" new_SearchOptions))).

(** The query once do_solr_query has set its sort. *)
Definition sorted : SearchOptions := CommonParams.sort "id asc" query.

Definition statement : string := "DELETE FROM sea_surface_temp WHERE tile_id=?".

(** A driver that hands back its list of results, with a failure on
    tile B and a success on every other tile. *)
Definition fails_on_B (_ : string) (doc_ids : list uuid) : exn + list (bool * string) :=
  inr (map (fun doc_id => if bool_decide (doc_id = 11) then (false, "timeout")
                          else (true, "")) doc_ids).

Definition no_json (_ : string) : exn + SearchOptions := inl ValueError.

(** A world with nothing done yet. *)
Definition start {SolrState} (s : SolrState) (lines : list string) : World SolrState :=
  {| solr := s; stdin := lines; rng := []; trace := [] |}.

(** The response to the count query over the three tiles. *)
Definition count3 : SolrResult :=
  {| numFound := 3; docs := [tileA; tileB]; nextCursorMark := None |}.

Definition count0 : SolrResult :=
  {| numFound := 0; docs := []; nextCursorMark := None |}.

(** A page with tile A and a new mark, and a response that comes with
    that same mark again and yet carries tile B. *)
Definition page1 : SolrResult :=
  {| numFound := 3; docs := [tileA]; nextCursorMark := Some "m1" |}.

Definition page2_same_mark : SolrResult :=
  {| numFound := 3; docs := [tileB]; nextCursorMark := Some "m1" |}.

(** A first response that comes back with the mark "*" it was sent. *)
Definition nothing_left : SolrResult :=
  {| numFound := 1; docs := []; nextCursorMark := Some "*" |}.

Definition count1 : SolrResult :=
  {| numFound := 1; docs := [tileA]; nextCursorMark := None |}.

Definition shownA : SolrResult :=
  {| numFound := 1; docs := [tileA]; nextCursorMark := None |}.

(** A row store whose driver raises on the first failure. *)
Definition raises_on_B (_ : string) (doc_ids : list uuid) : exn + list (bool * string) :=
  if bool_decide (11 ∈ doc_ids) then inl (DriverError "timeout")
  else inr (map (fun _ => (true, "")) doc_ids).

(** A response without a cursor mark. *)
Definition no_mark : SolrResult :=
  {| numFound := 3; docs := [tileB]; nextCursorMark := None |}.

End Example.

(** An index that never runs out of marks: every response carries no
    document and a mark longer than any it handed out before. *)
Module Endless.

Fixpoint mark (n : nat) : string :=
  match n with
  | O => "m"
  | S n' => String "m"%char (mark n')
  end.

Definition solr_search (n : nat) (_ : SearchOptions) : SolrResult * nat :=
  ({| numFound := 1; docs := []; nextCursorMark := Some (mark (S n)) |}, S n).

End Endless.

(** cassandra.concurrent.execute_concurrent_with_args(session, statement,
    parameters, concurrency=100, raise_on_first_error=True, ...) of the
    driver.  The row store answers every deletion with a success or a
    failure and a result.  With raise_on_first_error the driver raises
    the exception of a failed statement and returns no list; without it
    the driver returns one (success, result) pair for every parameter
    tuple, in their order.  Which failure is raised depends on the order
    in which the statements complete; here it is the first of the list.
    delete_from_cassandra (lines 184-185) gives no raise_on_first_error,
    so it calls the driver with True. *)
Module Cassandra.

Definition execute_concurrent_with_args (row_store : uuid -> bool * string)
           (raise_on_first_error : bool) (_ : string) (doc_ids : list uuid)
  : exn + list (bool * string) :=
  let results := map row_store doc_ids in
  if raise_on_first_error then
    match List.find (fun sr : bool * string => negb (fst sr)) results with
    | Some sr => inl (DriverError (snd sr))
    | None => inr results
    end
  else inr results.

End Cassandra.

(** More command lines and terminals to run the program on. *)
Module Cases.

(** Neither --query nor --jsonparams. *)
Definition args_none : Args :=
  {| args_query := None; args_jsonparams := None;
     args_filterquery := None; args_rows := 1000 |}.

(** --query '*:*' -fq 'dataset_s:AVHRR' 'day_i:[1 TO 5]' --solr-rows 2 *)
Definition args_filtered : Args :=
  {| args_query := Some "*:*"; args_jsonparams := None;
     args_filterquery := Some ["dataset_s:AVHRR"; "day_i:[1 TO 5]"]; args_rows := 2 |}.

(** --jsonparams with a body and a filter, and no --query. *)
Definition args_json : Args :=
  {| args_query := None; args_jsonparams := Some "{q: *:*}";
     args_filterquery := Some ["dataset_s:AVHRR"]; args_rows := 2 |}.

(** A reading of the JSON body that gives the query of all documents. *)
Definition read_json (_ : string) : exn + SearchOptions :=
  inr (CommonParams.q "*:*" new_SearchOptions).

(** A row store in which every deletion succeeds. *)
Definition store_ok (_ : uuid) : bool * string := (true, "").

(** A row store in which the deletion of tile B fails. *)
Definition store_fails_on_B (doc_id : uuid) : bool * string :=
  if bool_decide (doc_id = 11) then (false, "timeout") else (true, "").

(** A collection whose unique key is the field tile_id: one document
    without it, one in which it is no UUID; both carry a UUID as id. *)
Definition tile_unkeyed : gmap string jvalue :=
  {[ "id" := JStr "00000000-0000-0000-0000-00000000000b" ]}.

Definition tile_keyed : gmap string jvalue :=
  <["tile_id" := JStr "tile-17"]> {[ "id" := JStr "00000000-0000-0000-0000-00000000000a" ]}.

(** --solrIdField tile_id --query '*:*' --solr-rows 2 *)
Definition query_by_tile_id : SearchOptions :=
  CommonParams.rows 2
    (CommonParams.fl "id" (CommonParams.fl "tile_id" (CommonParams.q "*:*" new_SearchOptions))).

End Cases.

(* --------------------------------------------------------------------- *)
(* The program                                                            *)
(* --------------------------------------------------------------------- *)

Section Program.

Context {SolrState : Type}.

(** solr_collection.search: the index answers a request and moves on. *)
Variable solr_search : SolrState -> SearchOptions -> SolrResult * SolrState.

(** The module's globals set by init. *)
Variable SOLR_UNIQUE_KEY : string.
Variable cassandra_table : string.

(** uuid.UUID on a string; None when it raises ValueError. *)
Variable UUID : string -> option uuid.

(** cassandra.concurrent.execute_concurrent_with_args: the driver either
    raises or returns one (success, result) pair per parameter tuple. *)
Variable execute_concurrent_with_args : string -> list uuid -> exn + list (bool * string).

(** SearchOptions with the keyword arguments json.loads(text) *)
Variable SearchOptions_of_json : string -> exn + SearchOptions.

Local Abbreviation World := (World SolrState).
Local Abbreviation M := (M SolrState).

(** solr_collection.search(query) *)
Definition search (query : SearchOptions) : M SolrResult :=
  fun w =>
    let '(r, s) := solr_search (solr w) query in
    Ok r {| solr := s; stdin := stdin w; rng := rng w;
            trace := trace w ++ [EvSearch query r] |}.

(** input(p): the next line of the terminal, EOFError when there is none. *)
Definition input (p : prompt) : M string :=
  fun w =>
    let t := trace w ++ [EvInput p] in
    match stdin w with
    | [] => Raised EOFError {| solr := solr w; stdin := []; rng := rng w; trace := t |}
    | line :: rest => Ok line {| solr := solr w; stdin := rest; rng := rng w; trace := t |}
    end.

Definition logging_info (m : message) : M unit := emit (EvLog INFO m).
Definition logging_warning (m : message) : M unit := emit (EvLog WARNING m).

(** sample(population, 1)[0]: ValueError on an empty population, else
    the element at the position the generator draws. *)
Definition sample1 {A} (population : list A) : M A :=
  fun w =>
    match population with
    | [] => Raised ValueError w
    | x :: _ =>
        let r := hd 0%nat (rng w) in
        Ok (nth (r mod length population) population x)
           {| solr := solr w; stdin := stdin w; rng := tl (rng w); trace := trace w |}
    end.

(** d[key] *)
Definition getitem (d : gmap string jvalue) (key : string) : exn + jvalue :=
  match d !! key with
  | Some v => inr v
  | None => inl (KeyError key)
  end.

(** l[0] *)
Definition first_item {A} (l : list A) : exn + A :=
  match l with
  | x :: _ => inr x
  | [] => inl IndexError
  end.

(** uuid.UUID(v): a value that is not a string has no replace method. *)
Definition uuid_UUID (v : jvalue) : exn + uuid :=
  match v with
  | JStr s => match UUID s with
              | Some u => inr u
              | None => inl ValueError
              end
  | JOther _ => inl AttributeError
  end.

(** uuid.UUID(doc['id']) *)
Definition doc_id (doc : gmap string jvalue) : exn + uuid :=
  match getitem doc "id" with
  | inl e => inl e
  | inr v => uuid_UUID v
  end.

(** [f(x) for x in l], stopping at the first element that raises. *)
Fixpoint comprehension {A B} (f : A -> exn + B) (l : list A) : exn + list B :=
  match l with
  | [] => inr []
  | x :: l' =>
      match f x with
      | inl e => inl e
      | inr y =>
          match comprehension f l' with
          | inl e => inl e
          | inr ys => inr (y :: ys)
          end
      end
  end.

(** while do_continue not in valid: do_continue = input(p) *)
Fixpoint ask_again (fuel : nat) (valid : list string) (p : prompt)
         (do_continue : string) : M string :=
  if bool_decide (do_continue ∈ valid) then ret do_continue
  else
    match fuel with
    | O => out_of_fuel
    | S fuel' =>
        do do_continue <- input p;
        ask_again fuel' valid p do_continue
    end.

(** confirm_delete, lines 111-119 *)
Definition confirm_delete (fuel : nat) (num_found : nat) : M bool :=
  do do_continue <- input (AskDelete num_found);
  do do_continue <- ask_again fuel ["y"; "n"] (AskDelete num_found) do_continue;
  ret (bool_decide (do_continue = "y")).

(** check_query, lines 122-144 *)
Fixpoint check_query (fuel : nat) (query : SearchOptions) : M bool :=
  match fuel with
  | O => out_of_fuel
  | S fuel' =>
      do solr_response <- search query;
      let num_found := numFound solr_response in
      if bool_decide (num_found = 0) then
        logging_info MsgNoResults;;
        ret false
      else
        do do_continue <- input (AskContinue num_found);
        do do_continue <- ask_again fuel' ["y"; "n"; "s"; ""] (AskContinue num_found) do_continue;
        if bool_decide (do_continue = "y") || bool_decide (do_continue = "") then ret true
        else if bool_decide (do_continue = "n") then ret false
        else
          do picked <- sample1 (docs solr_response);
          do key <- lift (getitem picked SOLR_UNIQUE_KEY);
          let se := CommonParams.q (SOLR_UNIQUE_KEY +:+ ":" +:+ py_str key) new_SearchOptions in
          do shown <- search se;
          do d <- lift (first_item (docs shown));
          logging_info (MsgDocument d);;
          check_query fuel' query
  end.

(** The loop of do_solr_query, lines 152-168.  The query object is
    changed in place, so it is carried along and handed back. *)
Fixpoint do_solr_query_loop (fuel : nat) (query : SearchOptions)
         (next_cursor_mark : string) (doc_ids : list uuid)
  : M (list uuid * SearchOptions) :=
  match fuel with
  | O => out_of_fuel
  | S fuel' =>
      let query := CommonParams.remove_param "cursorMark" query in
      let query := CommonParams.add_params "cursorMark" next_cursor_mark query in
      do solr_response <- search query;
      match nextCursorMark solr_response with
      | None => ret ([], query)
      | Some result_next_cursor_mark =>
          if bool_decide (result_next_cursor_mark = next_cursor_mark) then
            ret (doc_ids, query)
          else
            do ids <- lift (comprehension doc_id (docs solr_response));
            do_solr_query_loop fuel' query result_next_cursor_mark (doc_ids ++ ids)
      end
  end.

(** do_solr_query, lines 147-170 *)
Definition do_solr_query (fuel : nat) (query : SearchOptions)
  : M (list uuid * SearchOptions) :=
  let query := CommonParams.sort (SOLR_UNIQUE_KEY +:+ " asc") query in
  do_solr_query_loop fuel query "*" [].

(** The loop of delete_from_cassandra, lines 187-189 *)
Fixpoint warn_failures (results : list (bool * string)) : M unit :=
  match results with
  | [] => ret tt
  | (success, result) :: results' =>
      (if negb success then logging_warning (MsgCouldNotDelete result) else ret tt);;
      warn_failures results'
  end.

(** delete_from_cassandra, lines 181-189 *)
Definition delete_from_cassandra (doc_ids : list uuid) : M unit :=
  let statement := "DELETE FROM " +:+ cassandra_table +:+ " WHERE tile_id=?" in
  emit (EvPrepare statement);;
  emit (EvExecuteConcurrent statement doc_ids);;
  do results <- lift (execute_concurrent_with_args statement doc_ids);
  warn_failures results.

(** delete_from_solr, lines 192-194 *)
Definition delete_from_solr (query : SearchOptions) : M unit :=
  emit (EvSolrDelete query false);;
  emit EvSolrCommit.

(** do_delete, lines 173-178 *)
Definition do_delete (doc_ids : list uuid) (query : SearchOptions) : M (list uuid) :=
  logging_info MsgCassandraDelete;;
  delete_from_cassandra doc_ids;;
  logging_info MsgSolrDelete;;
  delete_from_solr query;;
  ret doc_ids.

(** The truth value of an optional string: None and "" are false. *)
Definition truthy (s : option string) : bool :=
  match s with
  | Some s => negb (bool_decide (s = ""))
  | None => false
  end.

(** The construction of the query, lines 76-94 *)
Definition build_query (args : Args) : exn + SearchOptions :=
  let with_fields se := CommonParams.fl "id" (CommonParams.fl SOLR_UNIQUE_KEY se) in
  let built :=
    if truthy (args_query args) then
      let se := with_fields (CommonParams.q (default "" (args_query args)) new_SearchOptions) in
      inr (fold_left (fun se fq => CommonParams.fq fq se)
                     (default [] (args_filterquery args)) se)
    else if truthy (args_jsonparams args) then
      match SearchOptions_of_json (default "" (args_jsonparams args)) with
      | inl e => inl e
      | inr se => inr (with_fields se)
      end
    else inl (RuntimeError "either query or jsonparams is required") in
  match built with
  | inl e => inl e
  | inr query => inr (CommonParams.rows (args_rows args) query)
  end.

(** delete_by_query, lines 75-108 *)
Definition delete_by_query (fuel : nat) (args : Args) : M unit :=
  do query <- lift (build_query args);
  do proceed <- check_query fuel query;
  if proceed then
    logging_info MsgCollecting;;
    do '(solr_docs, query) <- do_solr_query fuel query;
    do sure <- confirm_delete fuel (length solr_docs);
    if sure then
      do deleted_ids <- do_delete solr_docs query;
      logging_info (MsgDeleted deleted_ids)
    else
      logging_info MsgExiting
  else
    logging_info MsgExiting.

(** The request of one turn of the loop: the query with its cursor mark
    replaced by the mark to send (lines 153-154). *)
Definition request (query : SearchOptions) (mark : string) : SearchOptions :=
  CommonParams.add_params "cursorMark" mark (CommonParams.remove_param "cursorMark" query).

(** The searches of a run of the loop that starts with mark m and gets
    the responses rs: each request carries the mark of the response
    before it. *)
Fixpoint exchanges (query : SearchOptions) (mark : string) (rs : list SolrResult)
  : list event :=
  match rs with
  | [] => []
  | r :: rs' =>
      EvSearch (request query mark) r
        :: exchanges query (default mark (nextCursorMark r)) rs'
  end.

(** A search of the paginator: the query with one cursor mark, and what
    the index answered to it. *)
Definition page_of (query : SearchOptions) (e : event) : Prop :=
  exists m r s, e = EvSearch (request query m) r /\
                r = fst (solr_search s (request query m)).

(** advancing query s m rs m' s': asked page after page from mark m and
    state s on, the index gives the responses rs, each with a mark that
    differs from the one it was sent, and is left in state s' with m' the
    mark to send next. *)
Inductive advancing (query : SearchOptions)
  : SolrState -> string -> list SolrResult -> string -> SolrState -> Prop :=
| advancing_nil s m : advancing query s m [] m s
| advancing_cons s m r s1 m1 rs m2 s2 :
    solr_search s (request query m) = (r, s1) ->
    nextCursorMark r = Some m1 ->
    m1 <> m ->
    advancing query s1 m1 rs m2 s2 ->
    advancing query s m (r :: rs) m2 s2.

(** A document whose id field is absent, is not a string, or is a string
    that uuid.UUID does not read. *)
Definition malformed (doc : gmap string jvalue) : Prop :=
  match doc !! "id" with
  | None => True
  | Some (JOther _) => True
  | Some (JStr s) => UUID s = None
  end.

(** The events of a list of (success, result) pairs: one warning for each
    pair that reports a failure. *)
Definition warnings (results : list (bool * string)) : list event :=
  flat_map (fun sr : bool * string =>
              if fst sr then [] else [EvLog WARNING (MsgCouldNotDelete (snd sr))])
           results.

(** Between w and w' nothing was deleted, and the terminal only lost
    lines from its front. *)
Definition quiet (w w' : World) : Prop :=
  (exists evs, trace w' = trace w ++ evs /\ Forall (fun e => is_deletion e = false) evs) /\
  (exists taken, stdin w = taken ++ stdin w').

(** A run from w that ends, with a value or an exception, ends in a
    world that is quiet with respect to w. *)
Definition quiet_outcome {A} (w : World) (o : outcome SolrState A) : Prop :=
  match o with
  | Ok _ w' | Raised _ w' => quiet w w'
  | OutOfFuel => True
  end.

(** A run that was not cut off: it returned or it raised. *)
Definition ends {A} (o : outcome SolrState A) : Prop :=
  match o with
  | OutOfFuel => False
  | _ => True
  end.

(* ===================================================================== *)
(* Properties                                                             *)
(* ===================================================================== *)

Set Default Proof Using "Type".

Local Abbreviation statement := ("DELETE FROM " +:+ cassandra_table +:+ " WHERE tile_id=?").

Lemma logged_nil (w : World) : logged w [] = w.
Proof. destruct w. unfold logged. simpl. by rewrite app_nil_r. Qed.

Lemma logged_logged (w : World) (a b : list event) :
  logged (logged w a) b = logged w (a ++ b).
Proof. unfold logged. simpl. by rewrite app_assoc. Qed.

Lemma emit_logged (e : event) (w : World) : emit e w = Ok tt (logged w [e]).
Proof. reflexivity. Qed.

Lemma bind_Ok {A B} (m : M A) (k : A -> M B) w a w' :
  m w = Ok a w' -> bind m k w = k a w'.
Proof. unfold bind. by intros ->. Qed.

Lemma bind_Raised {A B} (m : M A) (k : A -> M B) w e w' :
  m w = Raised e w' -> bind m k w = Raised e w'.
Proof. unfold bind. by intros ->. Qed.

Lemma bind_OutOfFuel {A B} (m : M A) (k : A -> M B) w :
  m w = OutOfFuel -> bind m k w = OutOfFuel.
Proof. unfold bind. by intros ->. Qed.

(* --------------------------------------------------------------------- *)
(* The dual-store deleter                                                 *)
(* --------------------------------------------------------------------- *)

Lemma warn_failures_logged (results : list (bool * string)) (w : World) :
  warn_failures results w = Ok tt (logged w (warnings results)).
Proof.
  revert w. induction results as [|[success result] results IH]; intros w.
  - simpl. unfold ret. by rewrite logged_nil.
  - simpl. destruct success; simpl.
    + unfold bind, ret. apply IH.
    + unfold bind, logging_warning. rewrite emit_logged, IH.
      by rewrite logged_logged.
Qed.

Lemma delete_from_cassandra_reported doc_ids results (w : World) :
  execute_concurrent_with_args statement doc_ids = inr results ->
  delete_from_cassandra doc_ids w =
    Ok tt (logged w ([EvPrepare statement; EvExecuteConcurrent statement doc_ids]
                       ++ warnings results)).
Proof.
  intros Hdrv. unfold delete_from_cassandra.
  unfold bind at 1. rewrite emit_logged.
  unfold bind at 1. rewrite emit_logged.
  unfold bind. rewrite Hdrv. simpl. unfold ret.
  rewrite warn_failures_logged. by rewrite !logged_logged.
Qed.

Lemma delete_from_cassandra_raised doc_ids e (w : World) :
  execute_concurrent_with_args statement doc_ids = inl e ->
  delete_from_cassandra doc_ids w =
    Raised e (logged w [EvPrepare statement; EvExecuteConcurrent statement doc_ids]).
Proof.
  intros Hdrv. unfold delete_from_cassandra.
  unfold bind at 1. rewrite emit_logged.
  unfold bind at 1. rewrite emit_logged.
  unfold bind. rewrite Hdrv. simpl. unfold raise.
  by rewrite !logged_logged.
Qed.

Lemma delete_from_solr_logged query (w : World) :
  delete_from_solr query w = Ok tt (logged w [EvSolrDelete query false; EvSolrCommit]).
Proof.
  unfold delete_from_solr, bind. rewrite !emit_logged. by rewrite logged_logged.
Qed.

Lemma do_delete_reported doc_ids query results (w : World) :
  execute_concurrent_with_args statement doc_ids = inr results ->
  do_delete doc_ids query w =
    Ok doc_ids
       (logged w ([EvLog INFO MsgCassandraDelete;
                   EvPrepare statement;
                   EvExecuteConcurrent statement doc_ids]
                    ++ warnings results
                    ++ [EvLog INFO MsgSolrDelete;
                        EvSolrDelete query false;
                        EvSolrCommit])).
Proof.
  intros Hdrv. unfold do_delete, logging_info.
  unfold bind at 1. rewrite emit_logged.
  unfold bind at 1. rewrite (delete_from_cassandra_reported _ _ _ Hdrv).
  unfold bind at 1. rewrite emit_logged.
  unfold bind at 1. rewrite delete_from_solr_logged.
  unfold ret. rewrite !logged_logged. simpl. by rewrite <- ?app_assoc.
Qed.

Lemma warnings_failure result (results : list (bool * string)) :
  (false, result) ∈ results ->
  EvLog WARNING (MsgCouldNotDelete result) ∈ warnings results.
Proof.
  intros Hin. unfold warnings. apply list_elem_of_In, in_flat_map.
  exists (false, result). split; [by apply list_elem_of_In | simpl; auto].
Qed.

Lemma warnings_only_failures e (results : list (bool * string)) :
  e ∈ warnings results ->
  exists result, (false, result) ∈ results /\ e = EvLog WARNING (MsgCouldNotDelete result).
Proof.
  unfold warnings. intros Hin. apply list_elem_of_In, in_flat_map in Hin.
  destruct Hin as [[success result] [Hin He]]. destruct success; simpl in He.
  - destruct He.
  - destruct He as [<-|[]]. exists result. split; [by apply list_elem_of_In | done].
Qed.

Lemma do_delete_driver_raises doc_ids query e (w : World) :
  execute_concurrent_with_args statement doc_ids = inl e ->
  do_delete doc_ids query w =
    Raised e (logged w [EvLog INFO MsgCassandraDelete;
                        EvPrepare statement;
                        EvExecuteConcurrent statement doc_ids]).
Proof.
  intros Hdrv. unfold do_delete, logging_info.
  unfold bind at 1. rewrite emit_logged.
  unfold bind at 1. rewrite (delete_from_cassandra_raised _ _ _ Hdrv).
  by rewrite logged_logged.
Qed.

(** C6: in every call of do_delete the statement is prepared and the
    deletions of all the given IDs are submitted to the row store first.
    When the driver hands back its list of results, the failures it
    reports are logged, and only then the bulk delete is issued on the
    index: it carries the query do_delete was given, is not committed by
    itself, and is followed at once by the commit; the IDs given are
    returned.  This holds whatever the results are, failures included.
    When the driver raises, do_delete raises and the index is not
    touched. *)
Theorem do_delete_row_store_before_index doc_ids query (w : World) :
  let submitted := [EvLog INFO MsgCassandraDelete;
                    EvPrepare statement;
                    EvExecuteConcurrent statement doc_ids] in
  match execute_concurrent_with_args statement doc_ids with
  | inr results =>
      do_delete doc_ids query w =
        Ok doc_ids
           {| solr := solr w; stdin := stdin w; rng := rng w;
              trace := trace w
                         ++ submitted
                         ++ warnings results
                         ++ [EvLog INFO MsgSolrDelete;
                             EvSolrDelete query false;
                             EvSolrCommit] |}
  | inl e =>
      do_delete doc_ids query w =
        Raised e {| solr := solr w; stdin := stdin w; rng := rng w;
                    trace := trace w ++ submitted |}
  end.
Proof.
  intros submitted.
  destruct (execute_concurrent_with_args statement doc_ids) as [e|results] eqn:Hdrv.
  - by apply do_delete_driver_raises.
  - by apply do_delete_reported.
Qed.

(** What lines 187-189 do with a list of results, when the driver hands
    one back: delete_from_cassandra returns, having submitted the
    deletions of all the IDs of the roster, with one warning for every
    failure in the list and no other event; do_delete then issues the
    bulk delete and the commit on the index and returns the whole roster
    it was given. *)
Theorem row_store_failures_are_warnings doc_ids query results (w : World) :
  execute_concurrent_with_args statement doc_ids = inr results ->
  (exists w1,
      delete_from_cassandra doc_ids w = Ok tt w1 /\
      trace w1 = trace w ++ [EvPrepare statement; EvExecuteConcurrent statement doc_ids]
                         ++ warnings results /\
      (forall result, (false, result) ∈ results ->
                      EvLog WARNING (MsgCouldNotDelete result) ∈ warnings results) /\
      (forall e, e ∈ warnings results ->
                 exists result, (false, result) ∈ results /\
                                e = EvLog WARNING (MsgCouldNotDelete result))) /\
  (exists w2 before,
      do_delete doc_ids query w = Ok doc_ids w2 /\
      trace w2 = trace w ++ before ++ [EvSolrDelete query false; EvSolrCommit] /\
      EvExecuteConcurrent statement doc_ids ∈ before).
Proof.
  intros Hdrv. split.
  - eexists. split; [by apply delete_from_cassandra_reported|].
    split; [done|]. split.
    + intros result. apply warnings_failure.
    + intros e. apply warnings_only_failures.
  - eexists. eexists. split; [by apply do_delete_reported|]. split.
    + simpl. do 4 f_equal.
      instantiate (1 := [EvLog INFO MsgCassandraDelete; EvPrepare statement;
                         EvExecuteConcurrent statement doc_ids]
                          ++ warnings results ++ [EvLog INFO MsgSolrDelete]).
      simpl. by rewrite <- app_assoc.
    + apply elem_of_app. left. rewrite !elem_of_cons. auto.
Qed.

(* --------------------------------------------------------------------- *)
(* The confirmation gate                                                  *)
(* --------------------------------------------------------------------- *)

Lemma bind_Ok_inv {A B} (m : M A) (k : A -> M B) w b w' :
  bind m k w = Ok b w' -> exists a w1, m w = Ok a w1 /\ k a w1 = Ok b w'.
Proof.
  unfold bind. destruct (m w) as [a w1|e w1|] eqn:Hm; [eauto | done | done].
Qed.

Lemma search_Ok query (w : World) r s :
  solr_search (solr w) query = (r, s) ->
  search query w =
    Ok r {| solr := s; stdin := stdin w; rng := rng w;
            trace := trace w ++ [EvSearch query r] |}.
Proof. unfold search. by intros ->. Qed.

Lemma search_inv query (w : World) :
  exists r w1,
    search query w = Ok r w1 /\
    solr_search (solr w) query = (r, solr w1) /\
    stdin w1 = stdin w /\ rng w1 = rng w /\
    trace w1 = trace w ++ [EvSearch query r].
Proof.
  destruct (solr_search (solr w) query) as [r s] eqn:Hs.
  exists r, {| solr := s; stdin := stdin w; rng := rng w;
               trace := trace w ++ [EvSearch query r] |}.
  split; [by apply search_Ok|]. done.
Qed.

Lemma input_Ok_inv p (w : World) line w1 :
  input p w = Ok line w1 ->
  stdin w = line :: stdin w1 /\ solr w1 = solr w /\ rng w1 = rng w /\
  trace w1 = trace w ++ [EvInput p].
Proof.
  unfold input. destruct (stdin w) as [|l rest]; [done|].
  intros H. injection H as <- <-. done.
Qed.

(** The lines up to the first valid one are each answered by one more
    prompt; nothing else happens. *)
Lemma prompt_until_valid (valid : list string) p junk x rest fuel (w : World) :
  stdin w = junk ++ x :: rest ->
  Forall (fun line => line ∉ valid) junk ->
  x ∈ valid ->
  (length junk <= fuel)%nat ->
  (do do_continue <- input p; ask_again fuel valid p do_continue) w =
    Ok x {| solr := solr w; stdin := rest; rng := rng w;
            trace := trace w ++ repeat (EvInput p) (S (length junk)) |}.
Proof.
  revert fuel w. induction junk as [|j junk IH]; intros fuel w Hin Hjunk Hx Hfuel.
  - simpl in Hin. unfold bind, input. rewrite Hin.
    destruct fuel; simpl; rewrite bool_decide_true by done; done.
  - simpl in Hin. apply Forall_cons in Hjunk as [Hj Hjunk].
    destruct fuel as [|fuel]; [simpl in Hfuel; lia|].
    unfold bind at 1. unfold input at 1. rewrite Hin.
    cbn [ask_again]. rewrite bool_decide_false by done.
    rewrite IH with (fuel := fuel); [|done|done|done|simpl in Hfuel; lia].
    simpl. do 2 f_equal. rewrite <- app_assoc. done.
Qed.

(** When the terminal runs dry before a valid line was typed, the prompt
    loop ends with EOFError. *)
Lemma prompt_until_eof (valid : list string) p junk fuel (w : World) :
  stdin w = junk ->
  Forall (fun line => line ∉ valid) junk ->
  (length junk <= fuel)%nat ->
  (do do_continue <- input p; ask_again fuel valid p do_continue) w =
    Raised EOFError {| solr := solr w; stdin := []; rng := rng w;
                       trace := trace w ++ repeat (EvInput p) (S (length junk)) |}.
Proof.
  revert fuel w. induction junk as [|j junk IH]; intros fuel w Hin Hjunk Hfuel.
  - unfold bind, input. rewrite Hin. done.
  - apply Forall_cons in Hjunk as [Hj Hjunk].
    destruct fuel as [|fuel]; [simpl in Hfuel; lia|].
    unfold bind at 1. unfold input at 1. rewrite Hin.
    cbn [ask_again]. rewrite bool_decide_false by done.
    rewrite IH with (fuel := fuel); [|done|done|simpl in Hfuel; lia].
    simpl. do 2 f_equal. rewrite <- app_assoc. done.
Qed.

(** The line ask_again returns is valid, and it is the last line taken
    from the terminal. *)
Lemma ask_again_last (valid : list string) p fuel line (w : World) x w' :
  ask_again fuel valid p line w = Ok x w' ->
  x ∈ valid /\ solr w' = solr w /\ rng w' = rng w /\
  exists pre, line :: stdin w = pre ++ x :: stdin w'.
Proof.
  revert line w. induction fuel as [|fuel IH]; intros line w; simpl.
  - case_bool_decide as Hv; [|done]. unfold ret. intros H. injection H as <- <-.
    split; [done|]. split; [done|]. split; [done|]. by exists [].
  - case_bool_decide as Hv.
    + unfold ret. intros H. injection H as <- <-.
      split; [done|]. split; [done|]. split; [done|]. by exists [].
    + intros H. apply bind_Ok_inv in H as (l & w1 & Hl & H).
      apply input_Ok_inv in Hl as (Hl & Hs & Hr & _).
      apply IH in H as (Hx & Hs' & Hr' & pre & Hpre).
      split; [done|]. split; [congruence|]. split; [congruence|].
      exists (line :: pre). rewrite Hl. simpl. by rewrite Hpre.
Qed.

Lemma bind_assoc {A B C} (m : M A) (f : A -> M B)
      (g : B -> M C) (w : World) :
  bind (bind m f) g w = bind m (fun x => bind (f x) g) w.
Proof. unfold bind. by destruct (m w). Qed.

Lemma prompt_then {B} (valid : list string) p junk x rest fuel (w : World)
      (k : string -> M B) :
  stdin w = junk ++ x :: rest ->
  Forall (fun line => line ∉ valid) junk ->
  x ∈ valid ->
  (length junk <= fuel)%nat ->
  (do do_continue <- input p;
   do do_continue <- ask_again fuel valid p do_continue;
   k do_continue) w =
    k x {| solr := solr w; stdin := rest; rng := rng w;
           trace := trace w ++ repeat (EvInput p) (S (length junk)) |}.
Proof.
  intros Hin Hjunk Hx Hfuel.
  rewrite <- (bind_assoc (input p) (fun c => ask_again fuel valid p c) k).
  by rewrite (bind_Ok _ _ _ _ _ (prompt_until_valid valid p junk x rest fuel w Hin Hjunk Hx Hfuel)).
Qed.

Lemma check_query_step fuel query (w : World) r s :
  solr_search (solr w) query = (r, s) ->
  numFound r <> 0 ->
  check_query (S fuel) query w =
    (do do_continue <- input (AskContinue (numFound r));
     do do_continue <- ask_again fuel ["y"; "n"; "s"; ""] (AskContinue (numFound r)) do_continue;
     if bool_decide (do_continue = "y") || bool_decide (do_continue = "") then ret true
     else if bool_decide (do_continue = "n") then ret false
     else
       do picked <- sample1 (docs r);
       do key <- lift (getitem picked SOLR_UNIQUE_KEY);
       let se := CommonParams.q (SOLR_UNIQUE_KEY +:+ ":" +:+ py_str key) new_SearchOptions in
       do shown <- search se;
       do d <- lift (first_item (docs shown));
       logging_info (MsgDocument d);;
       check_query fuel query)
      {| solr := s; stdin := stdin w; rng := rng w;
         trace := trace w ++ [EvSearch query r] |}.
Proof.
  intros Hs Hn. cbn [check_query].
  unfold bind at 1. rewrite (search_Ok _ _ _ _ Hs).
  by rewrite bool_decide_false.
Qed.

Lemma check_query_no_results fuel query (w : World) r s :
  solr_search (solr w) query = (r, s) ->
  numFound r = 0 ->
  check_query (S fuel) query w =
    Ok false {| solr := s; stdin := stdin w; rng := rng w;
                trace := trace w ++ [EvSearch query r; EvLog INFO MsgNoResults] |}.
Proof.
  intros Hs Hn. cbn [check_query].
  unfold bind at 1. rewrite (search_Ok _ _ _ _ Hs).
  rewrite bool_decide_true by done.
  unfold bind, logging_info, emit, ret. simpl. by rewrite <- app_assoc.
Qed.

Lemma sample1_Ok_inv {A} (population : list A) (w : World) x w' :
  sample1 population w = Ok x w' ->
  population <> [] /\ x ∈ population /\
  solr w' = solr w /\ stdin w' = stdin w /\ trace w' = trace w.
Proof.
  unfold sample1. destruct population as [|d ds] eqn:Hpop; [done|].
  rewrite <- Hpop. intros H.
  assert (x = nth (hd 0%nat (rng w) mod length population) population d) as ->
      by congruence.
  assert (w' = {| solr := solr w; stdin := stdin w; rng := tl (rng w); trace := trace w |})
    as -> by congruence.
  split; [by rewrite Hpop|]. split; [|done].
  apply list_elem_of_In, nth_In, Nat.mod_upper_bound. by rewrite Hpop.
Qed.

(** The gate only says yes after a last line "y" or "": whatever the
    index answers and however often the operator samples. *)
Lemma check_query_true_inv fuel query (w w' : World) :
  check_query fuel query w = Ok true w' ->
  exists pre x, stdin w = pre ++ x :: stdin w' /\ (x = "y" \/ x = "").
Proof.
  revert w. induction fuel as [|fuel IH]; intros w; [done|].
  destruct (solr_search (solr w) query) as [r s] eqn:Hs.
  destruct (decide (numFound r = 0)) as [Hn|Hn].
  { by rewrite (check_query_no_results _ _ _ _ _ Hs Hn). }
  rewrite (check_query_step _ _ _ _ _ Hs Hn).
  intros H. apply bind_Ok_inv in H as (l0 & w1 & Hl0 & H).
  apply input_Ok_inv in Hl0 as (Hl0 & _). simpl in Hl0.
  apply bind_Ok_inv in H as (l & w2 & Hl & H).
  apply ask_again_last in Hl as (Hv & _ & _ & pre & Hpre).
  rewrite Hl0, Hpre.
  destruct (bool_decide (l = "y") || bool_decide (l = "")) eqn:Hyes.
  { unfold ret in H. injection H as <-. exists pre, l. split; [done|].
    apply orb_true_iff in Hyes as [Hy|Hy]; apply bool_decide_eq_true in Hy; auto. }
  case_bool_decide as Hno; [done|].
  apply bind_Ok_inv in H as (picked & w3 & Hp & H).
  assert (stdin w3 = stdin w2) as H3 by (by apply sample1_Ok_inv in Hp as (_ & _ & _ & ? & _)).
  apply bind_Ok_inv in H as (key & w4 & Hk & H).
  assert (w4 = w3) as ->.
  { unfold lift in Hk. destruct (getitem picked SOLR_UNIQUE_KEY); [done|].
    unfold ret in Hk. by injection Hk. }
  apply bind_Ok_inv in H as (shown & w5 & Hshown & H).
  destruct (search_inv (CommonParams.q (SOLR_UNIQUE_KEY +:+ ":" +:+ py_str key)
                                       new_SearchOptions) w3)
    as (r' & w5' & Hsearch & _ & H5 & _).
  rewrite Hsearch in Hshown. injection Hshown as -> ->.
  apply bind_Ok_inv in H as (d & w6 & Hd & H).
  assert (w6 = w5) as ->.
  { unfold lift in Hd. destruct (first_item (docs shown)); [done|].
    unfold ret in Hd. by injection Hd. }
  apply bind_Ok_inv in H as ([] & w7 & Hlog & H).
  unfold logging_info, emit in Hlog. injection Hlog as <-.
  apply IH in H as (pre' & x & Hpre' & Hx). simpl in Hpre'.
  exists (pre ++ l :: pre'), x. split; [|done].
  rewrite <- app_assoc. simpl. congruence.
Qed.

(** C4: with a count that is not zero, check_query prompts until a line
    among y, n, s and the empty line is typed: every other line is
    answered by the same prompt again and by nothing else (no search, no
    log, no change of the index).  When that first valid line is y or
    empty the gate returns true, when it is n it returns false.  And
    whenever check_query returns true, in any run, the last line it read
    was y or empty. *)
Theorem check_query_answers fuel query (w : World) r s junk x rest :
  solr_search (solr w) query = (r, s) ->
  numFound r <> 0 ->
  stdin w = junk ++ x :: rest ->
  Forall (fun line => line ∉ ["y"; "n"; "s"; ""]) junk ->
  x ∈ ["y"; "n"; ""] ->
  (length junk <= fuel)%nat ->
  let w' := {| solr := s; stdin := rest; rng := rng w;
               trace := trace w ++ EvSearch query r
                          :: repeat (EvInput (AskContinue (numFound r))) (S (length junk)) |} in
  (x = "y" \/ x = "" -> check_query (S fuel) query w = Ok true w') /\
  (x = "n" -> check_query (S fuel) query w = Ok false w') /\
  (forall fuel' (w1 w2 : World),
      check_query fuel' query w1 = Ok true w2 ->
      exists pre last, stdin w1 = pre ++ last :: stdin w2 /\ (last = "y" \/ last = "")).
Proof.
  intros Hs Hn Hin Hjunk Hx Hfuel w'.
  assert (check_query (S fuel) query w = Ok (bool_decide (x = "y" \/ x = "")) w') as Hrun.
  { rewrite (check_query_step _ _ _ _ _ Hs Hn).
    assert (x = "y" \/ x = "n" \/ x = "") as Hcases
        by (repeat (apply elem_of_cons in Hx as [Hx|Hx]; auto); by apply elem_of_nil in Hx).
    rewrite prompt_then with (junk := junk) (x := x) (rest := rest);
      [|done|done| |done].
    - cbn [solr stdin rng trace]. rewrite <- app_assoc. cbn [app].
      destruct Hcases as [Hx'|[Hx'|Hx']]; subst x; done.
    - destruct Hcases as [Hx'|[Hx'|Hx']]; subst x; repeat constructor. }
  split; [|split].
  - intros Hyes. by rewrite Hrun, bool_decide_true.
  - intros ->. rewrite Hrun, bool_decide_false; [done|]. intros [?|?]; done.
  - intros fuel' w1 w2. apply check_query_true_inv.
Qed.

Lemma delete_by_query_built fuel args query (w : World) :
  build_query args = inr query ->
  delete_by_query fuel args w =
    (do proceed <- check_query fuel query;
     if proceed then
       logging_info MsgCollecting;;
       do '(solr_docs, query) <- do_solr_query fuel query;
       do sure <- confirm_delete fuel (length solr_docs);
       if sure then
         do deleted_ids <- do_delete solr_docs query;
         logging_info (MsgDeleted deleted_ids)
       else
         logging_info MsgExiting
     else
       logging_info MsgExiting) w.
Proof.
  intros Hq. unfold delete_by_query. unfold bind at 1. by rewrite Hq.
Qed.

(** C5: when the count query reports numFound = 0, check_query logs
    that there are no results and returns false without reading the
    terminal, and delete_by_query then only logs that it exits: no
    prompt is issued and no call that deletes is made. *)
Theorem no_results_no_prompt_no_delete fuel args query (w : World) r s :
  build_query args = inr query ->
  solr_search (solr w) query = (r, s) ->
  numFound r = 0 ->
  check_query (S fuel) query w =
    Ok false {| solr := s; stdin := stdin w; rng := rng w;
                trace := trace w ++ [EvSearch query r; EvLog INFO MsgNoResults] |} /\
  delete_by_query (S fuel) args w =
    Ok tt {| solr := s; stdin := stdin w; rng := rng w;
             trace := trace w ++ [EvSearch query r; EvLog INFO MsgNoResults;
                                  EvLog INFO MsgExiting] |} /\
  Forall (fun e => is_deletion e = false)
         [EvSearch query r; EvLog INFO MsgNoResults; EvLog INFO MsgExiting].
Proof.
  intros Hq Hs Hn. split; [by apply check_query_no_results|]. split.
  - rewrite (delete_by_query_built _ _ _ _ Hq).
    unfold bind at 1. rewrite (check_query_no_results _ _ _ _ _ Hs Hn).
    unfold logging_info, emit. simpl. by rewrite <- app_assoc.
  - by repeat constructor.
Qed.

Lemma confirm_delete_decided fuel num_found junk x rest (w : World) :
  stdin w = junk ++ x :: rest ->
  Forall (fun line => line ∉ ["y"; "n"]) junk ->
  x ∈ ["y"; "n"] ->
  (length junk <= fuel)%nat ->
  confirm_delete fuel num_found w =
    Ok (bool_decide (x = "y"))
       {| solr := solr w; stdin := rest; rng := rng w;
          trace := trace w ++ repeat (EvInput (AskDelete num_found)) (S (length junk)) |}.
Proof.
  intros Hin Hjunk Hx Hfuel. unfold confirm_delete.
  by rewrite prompt_then with (junk := junk) (x := x) (rest := rest).
Qed.

(** C3, as the code has it: once pagination has returned, the second
    confirmation is asked in every case, also for an empty list of IDs,
    with the number of IDs paginated in its prompt.  It accepts y and n
    only: every other line, the empty line and s among them, gets the
    same prompt again.  On y the deleter runs on the paginated IDs and
    the list is logged; on n the tool logs that it exits. *)
Theorem second_confirmation fuel args query (w w1 w2 : World) ids query' junk x rest :
  build_query args = inr query ->
  check_query fuel query w = Ok true w1 ->
  do_solr_query fuel query (logged w1 [EvLog INFO MsgCollecting]) = Ok (ids, query') w2 ->
  stdin w2 = junk ++ x :: rest ->
  Forall (fun line => line ∉ ["y"; "n"]) junk ->
  x ∈ ["y"; "n"] ->
  (length junk <= fuel)%nat ->
  let w3 := {| solr := solr w2; stdin := rest; rng := rng w2;
               trace := trace w2
                          ++ repeat (EvInput (AskDelete (length ids))) (S (length junk)) |} in
  (x = "y" ->
   delete_by_query fuel args w =
     (do deleted_ids <- do_delete ids query'; logging_info (MsgDeleted deleted_ids)) w3) /\
  (x = "n" ->
   delete_by_query fuel args w = Ok tt (logged w3 [EvLog INFO MsgExiting])).
Proof.
  intros Hq Hcheck Hpages Hin Hjunk Hx Hfuel w3.
  assert (delete_by_query fuel args w =
            (if bool_decide (x = "y")
             then do deleted_ids <- do_delete ids query';
                  logging_info (MsgDeleted deleted_ids)
             else logging_info MsgExiting) w3) as Hrun.
  { rewrite (delete_by_query_built _ _ _ _ Hq).
    unfold bind at 1. rewrite Hcheck.
    unfold bind at 1. unfold logging_info at 1. rewrite emit_logged.
    unfold bind at 1. rewrite Hpages.
    unfold bind at 1.
    by rewrite (confirm_delete_decided _ _ _ _ _ _ Hin Hjunk Hx Hfuel). }
  split; intros ->; rewrite Hrun.
  - by rewrite bool_decide_true.
  - rewrite bool_decide_false by done. apply emit_logged.
Qed.

(* --------------------------------------------------------------------- *)
(* Sampling                                                               *)
(* --------------------------------------------------------------------- *)

(** After the line s, check_query goes on with the two steps of the
    sampling branch and then calls itself. *)
Lemma check_query_sample_step fuel query (w : World) r s rest :
  solr_search (solr w) query = (r, s) ->
  numFound r <> 0 ->
  stdin w = "s" :: rest ->
  check_query (S fuel) query w =
    (do picked <- sample1 (docs r);
     do key <- lift (getitem picked SOLR_UNIQUE_KEY);
     let se := CommonParams.q (SOLR_UNIQUE_KEY +:+ ":" +:+ py_str key) new_SearchOptions in
     do shown <- search se;
     do d <- lift (first_item (docs shown));
     logging_info (MsgDocument d);;
     check_query fuel query)
      {| solr := s; stdin := rest; rng := rng w;
         trace := trace w ++ [EvSearch query r; EvInput (AskContinue (numFound r))] |}.
Proof.
  intros Hs Hn Hin. rewrite (check_query_step _ _ _ _ _ Hs Hn).
  rewrite prompt_then with (junk := []) (x := "s") (rest := rest);
    [|done|done|repeat constructor|simpl; lia].
  cbn [solr stdin rng trace length repeat]. rewrite <- app_assoc. done.
Qed.

(** C10: on the line s, check_query draws from the documents of the count
    response and shows element 0 of the documents of the follow-up
    search, with no guard on either.  With no document in the count
    response it raises ValueError, with no document in the follow-up
    response it raises IndexError, and whenever it returns, the count
    response held at least one document and the follow-up search for the
    unique key of the drawn document brought back at least one. *)
Theorem sampling_needs_documents fuel query (w : World) r s rest :
  solr_search (solr w) query = (r, s) ->
  numFound r <> 0 ->
  stdin w = "s" :: rest ->
  let w1 := {| solr := s; stdin := rest; rng := rng w;
               trace := trace w ++ [EvSearch query r; EvInput (AskContinue (numFound r))] |} in
  let follow_up key :=
    CommonParams.q (SOLR_UNIQUE_KEY +:+ ":" +:+ py_str key) new_SearchOptions in
  (docs r = [] -> check_query (S fuel) query w = Raised ValueError w1) /\
  (forall picked w2 key shown s',
      sample1 (docs r) w1 = Ok picked w2 ->
      picked !! SOLR_UNIQUE_KEY = Some key ->
      solr_search s (follow_up key) = (shown, s') ->
      docs shown = [] ->
      exists w3, check_query (S fuel) query w = Raised IndexError w3) /\
  (forall b w',
      check_query (S fuel) query w = Ok b w' ->
      docs r <> [] /\
      exists picked key shown s',
        picked ∈ docs r /\
        picked !! SOLR_UNIQUE_KEY = Some key /\
        solr_search s (follow_up key) = (shown, s') /\
        docs shown <> []).
Proof.
  intros Hs Hn Hin w1 follow_up.
  rewrite (check_query_sample_step _ _ _ _ _ _ Hs Hn Hin). fold w1.
  split; [|split].
  - intros Hnil. unfold bind, sample1. by rewrite Hnil.
  - intros picked w2 key shown s' Hp Hk Hsearch Hnil.
    rewrite (bind_Ok _ _ _ _ _ Hp).
    assert (lift (getitem picked SOLR_UNIQUE_KEY) w2 = Ok key w2) as Hkey
        by (unfold lift, getitem; by rewrite Hk).
    rewrite (bind_Ok _ _ _ _ _ Hkey). cbv zeta.
    assert (solr w2 = s) as Hw2 by (by apply sample1_Ok_inv in Hp as (_ & _ & ? & _)).
    rewrite <- Hw2 in Hsearch.
    rewrite (bind_Ok _ _ _ _ _ (search_Ok _ _ _ _ Hsearch)).
    unfold bind, lift. rewrite Hnil. simpl. unfold raise. eauto.
  - intros b w' H.
    apply bind_Ok_inv in H as (picked & w2 & Hp & H).
    apply sample1_Ok_inv in Hp as (Hne & Hpicked & Hw2 & _). simpl in Hw2.
    split; [done|].
    apply bind_Ok_inv in H as (key & w3 & Hk & H).
    unfold getitem in Hk.
    destruct (picked !! SOLR_UNIQUE_KEY) as [key'|] eqn:Hkey; [|done].
    simpl in Hk. unfold ret in Hk. injection Hk as -> ->.
    apply bind_Ok_inv in H as (shown & w4 & Hshown & H).
    destruct (search_inv (follow_up key) w3) as (shown' & w4' & Hsearch & Hsolr & _).
    unfold follow_up in Hsearch. rewrite Hsearch in Hshown. injection Hshown as -> ->.
    apply bind_Ok_inv in H as (d & w5 & Hd & _).
    exists picked, key, shown, (solr w4). split; [done|]. split; [done|].
    split; [by rewrite <- Hw2|].
    intros Hnil. rewrite Hnil in Hd. done.
Qed.

(** X2: after a sample was shown, check_query starts again from its
    first line: the count query is searched once more before the
    operator is asked again. *)
Theorem sampling_restarts_check fuel query (w : World) r s rest picked w2 key shown s' d ds :
  solr_search (solr w) query = (r, s) ->
  numFound r <> 0 ->
  stdin w = "s" :: rest ->
  let w1 := {| solr := s; stdin := rest; rng := rng w;
               trace := trace w ++ [EvSearch query r; EvInput (AskContinue (numFound r))] |} in
  let follow_up :=
    CommonParams.q (SOLR_UNIQUE_KEY +:+ ":" +:+ py_str key) new_SearchOptions in
  sample1 (docs r) w1 = Ok picked w2 ->
  picked !! SOLR_UNIQUE_KEY = Some key ->
  solr_search s follow_up = (shown, s') ->
  docs shown = d :: ds ->
  check_query (S fuel) query w =
    check_query fuel query
      {| solr := s'; stdin := rest; rng := rng w2;
         trace := trace w ++ [EvSearch query r;
                              EvInput (AskContinue (numFound r));
                              EvSearch follow_up shown;
                              EvLog INFO (MsgDocument d)] |}.
Proof.
  intros Hs Hn Hin w1 follow_up Hp Hk Hsearch Hshown.
  rewrite (check_query_sample_step _ _ _ _ _ _ Hs Hn Hin). fold w1.
  rewrite (bind_Ok _ _ _ _ _ Hp).
  assert (lift (getitem picked SOLR_UNIQUE_KEY) w2 = Ok key w2) as Hkey
      by (unfold lift, getitem; by rewrite Hk).
  rewrite (bind_Ok _ _ _ _ _ Hkey). cbv zeta. fold follow_up.
  apply sample1_Ok_inv in Hp as (_ & _ & Hw2 & Hin2 & Ht2). simpl in Hw2, Hin2, Ht2.
  rewrite <- Hw2 in Hsearch.
  rewrite (bind_Ok _ _ _ _ _ (search_Ok _ _ _ _ Hsearch)).
  unfold bind at 1, lift. rewrite Hshown. cbn [first_item]. unfold ret at 1.
  unfold bind at 1, logging_info, emit. cbn [solr stdin rng trace].
  rewrite Hin2, Ht2. by rewrite <- !app_assoc.
Qed.

(* --------------------------------------------------------------------- *)
(* The cursor paginator                                                   *)
(* --------------------------------------------------------------------- *)

Lemma request_commonparams query mark :
  request query mark =
    {| commonparams := <["cursorMark" := [PStr mark]]> (delete "cursorMark" (commonparams query)) |}.
Proof.
  unfold request, CommonParams.add_params, CommonParams.add_value, CommonParams.remove_param.
  simpl. by rewrite lookup_delete_eq.
Qed.

(** The mark of a request is the only value of its cursorMark. *)
Lemma request_cursorMark query mark :
  CommonParams.get "cursorMark" (request query mark) = Some [PStr mark].
Proof.
  rewrite request_commonparams. unfold CommonParams.get. simpl. by rewrite lookup_insert_eq.
Qed.

Lemma request_other query mark name :
  name <> "cursorMark" ->
  CommonParams.get name (request query mark) = CommonParams.get name query.
Proof.
  intros Hne. rewrite request_commonparams. unfold CommonParams.get. simpl.
  rewrite lookup_insert_ne by done. by rewrite lookup_delete_ne.
Qed.

(** Replacing the mark twice is replacing it once. *)
Lemma request_request query mark mark' :
  request (request query mark) mark' = request query mark'.
Proof.
  rewrite !request_commonparams. simpl. f_equal.
  by rewrite delete_insert_eq, delete_delete_eq.
Qed.

Lemma comprehension_app {A B} (f : A -> exn + B) (l1 l2 : list A) :
  comprehension f (l1 ++ l2) =
    match comprehension f l1 with
    | inl e => inl e
    | inr ys1 =>
        match comprehension f l2 with
        | inl e => inl e
        | inr ys2 => inr (ys1 ++ ys2)
        end
    end.
Proof.
  induction l1 as [|x l1 IH]; simpl.
  - by destruct (comprehension f l2).
  - destruct (f x); [done|]. rewrite IH.
    destruct (comprehension f l1); [done|]. by destruct (comprehension f l2).
Qed.

Lemma comprehension_length {A B} (f : A -> exn + B) (l : list A) ys :
  comprehension f l = inr ys -> length ys = length l.
Proof.
  revert ys. induction l as [|x l IH]; intros ys; simpl.
  - by intros [= <-].
  - destruct (f x); [done|]. destruct (comprehension f l); [done|].
    intros [= <-]. simpl. f_equal. by apply IH.
Qed.

Lemma comprehension_raises {A B} (f : A -> exn + B) (l : list A) x e :
  x ∈ l -> f x = inl e -> exists e', comprehension f l = inl e'.
Proof.
  intros Hin Hx. induction Hin as [x l|x y l Hin IH]; simpl.
  - rewrite Hx. eauto.
  - destruct (f y); [eauto|]. destruct (IH Hx) as [e' ->]. eauto.
Qed.

Lemma malformed_raises doc :
  malformed doc -> exists e, doc_id doc = inl e.
Proof.
  unfold malformed, doc_id, getitem, uuid_UUID.
  destruct (doc !! "id") as [[s|repr]|]; [|eauto|eauto].
  intros ->. eauto.
Qed.

(** One turn of the loop, by what the response says. *)
Lemma loop_turn fuel query mark doc_ids (w : World) r s :
  solr_search (solr w) (request query mark) = (r, s) ->
  let w1 := {| solr := s; stdin := stdin w; rng := rng w;
               trace := trace w ++ [EvSearch (request query mark) r] |} in
  do_solr_query_loop (S fuel) query mark doc_ids w =
    match nextCursorMark r with
    | None => Ok ([], request query mark) w1
    | Some result_next_cursor_mark =>
        if bool_decide (result_next_cursor_mark = mark) then
          Ok (doc_ids, request query mark) w1
        else
          match comprehension doc_id (docs r) with
          | inl e => Raised e w1
          | inr ids =>
              do_solr_query_loop fuel (request query mark) result_next_cursor_mark
                                 (doc_ids ++ ids) w1
          end
    end.
Proof.
  intros Hs w1. cbn [do_solr_query_loop]. fold (request query mark).
  rewrite (bind_Ok _ _ _ _ _ (search_Ok _ _ _ _ Hs)). fold w1.
  destruct (nextCursorMark r) as [m|]; [|done].
  case_bool_decide; [done|].
  unfold bind, lift. by destruct (comprehension doc_id (docs r)).
Qed.

Lemma loop_stops fuel query mark doc_ids (w : World) r s :
  solr_search (solr w) (request query mark) = (r, s) ->
  nextCursorMark r = Some mark ->
  do_solr_query_loop (S fuel) query mark doc_ids w =
    Ok (doc_ids, request query mark)
       {| solr := s; stdin := stdin w; rng := rng w;
          trace := trace w ++ [EvSearch (request query mark) r] |}.
Proof.
  intros Hs Hm. rewrite (loop_turn _ _ _ _ _ _ _ Hs), Hm.
  by rewrite bool_decide_true.
Qed.

(** Through responses whose marks advance, the loop appends the IDs of
    their documents, page after page. *)
Lemma loop_advancing query s m rs m' s' :
  advancing query s m rs m' s' ->
  forall sent doc_ids (w : World) fuel ids,
    (forall x, request sent x = request query x) ->
    solr w = s ->
    comprehension doc_id (flat_map docs rs) = inr ids ->
    exists sent',
      (forall x, request sent' x = request query x) /\
      do_solr_query_loop (length rs + fuel) sent m doc_ids w =
        do_solr_query_loop fuel sent' m' (doc_ids ++ ids)
          {| solr := s'; stdin := stdin w; rng := rng w;
             trace := trace w ++ exchanges query m rs |}.
Proof.
  induction 1 as [s m|s m r s1 m1 rs m2 s2 Hs Hm Hne Hadv IH];
    intros sent doc_ids w fuel ids Hsent Hw Hids.
  - simpl in Hids. injection Hids as <-. exists sent. split; [done|].
    destruct w; simpl in *. subst. by rewrite !app_nil_r.
  - simpl in Hids. rewrite comprehension_app in Hids.
    destruct (comprehension doc_id (docs r)) as [|ids1] eqn:H1; [done|].
    destruct (comprehension doc_id (flat_map docs rs)) as [|ids2] eqn:H2; [done|].
    injection Hids as <-.
    rewrite <- Hw, <- Hsent in Hs.
    cbn [length Nat.add]. rewrite (loop_turn _ _ _ _ _ _ _ Hs), Hm.
    rewrite bool_decide_false by done. rewrite H1.
    edestruct (IH (request sent m) (doc_ids ++ ids1)) as (sent' & Hsent' & ->);
      [| |reflexivity|].
    + intros x. by rewrite request_request.
    + done.
    + exists sent'. split; [done|].
      cbn [solr stdin rng trace exchanges]. rewrite Hm. cbn [default].
      rewrite Hsent. by rewrite <- !app_assoc.
Qed.

(** A page that cannot be read ends the loop with the exception of its
    first unreadable document. *)
Lemma loop_unreadable query s m rs m' s' :
  advancing query s m rs m' s' ->
  forall sent doc_ids (w : World) fuel e,
    (forall x, request sent x = request query x) ->
    solr w = s ->
    comprehension doc_id (flat_map docs rs) = inl e ->
    (length rs <= fuel)%nat ->
    exists w', do_solr_query_loop fuel sent m doc_ids w = Raised e w'.
Proof.
  induction 1 as [s m|s m r s1 m1 rs m2 s2 Hs Hm Hne Hadv IH];
    intros sent doc_ids w fuel e Hsent Hw He Hfuel; [done|].
  simpl in He. rewrite comprehension_app in He.
  destruct fuel as [|fuel]; [simpl in Hfuel; lia|].
  rewrite <- Hw, <- Hsent in Hs.
  rewrite (loop_turn _ _ _ _ _ _ _ Hs), Hm.
  rewrite bool_decide_false by done.
  destruct (comprehension doc_id (docs r)) as [e1|ids1] eqn:H1.
  - injection He as ->. eauto.
  - destruct (comprehension doc_id (flat_map docs rs)) as [e2|] eqn:H2; [|done].
    injection He as ->.
    apply (IH (request sent m)); [|done|done|simpl in Hfuel; lia].
    intros x. by rewrite request_request.
Qed.

(** C2, as the code has it: when the mark of a response is the mark that
    was sent, the loop stops at once and returns the IDs gathered so far;
    the documents of that response are not read.  Nothing requires an
    earlier page: the first request sends the mark "*", and when the
    first response comes back with "*" do_solr_query returns the empty
    list after this one search. *)
Theorem same_mark_stops :
  (forall fuel query mark doc_ids (w : World) r s,
      solr_search (solr w) (request query mark) = (r, s) ->
      nextCursorMark r = Some mark ->
      do_solr_query_loop (S fuel) query mark doc_ids w =
        Ok (doc_ids, request query mark)
           {| solr := s; stdin := stdin w; rng := rng w;
              trace := trace w ++ [EvSearch (request query mark) r] |}) /\
  (forall fuel query (w : World) r s,
      let sorted := CommonParams.sort (SOLR_UNIQUE_KEY +:+ " asc") query in
      solr_search (solr w) (request sorted "*") = (r, s) ->
      nextCursorMark r = Some "*" ->
      CommonParams.get "cursorMark" (request sorted "*") = Some [PStr "*"] /\
      do_solr_query (S fuel) query w =
        Ok ([], request sorted "*")
           {| solr := s; stdin := stdin w; rng := rng w;
              trace := trace w ++ [EvSearch (request sorted "*") r] |}).
Proof.
  split.
  - intros. by apply loop_stops.
  - intros fuel query w r s sorted Hs Hm. split; [apply request_cursorMark|].
    unfold do_solr_query. by apply loop_stops.
Qed.

(** C9: when the responses rs came with marks that advance and the
    response after them, last, comes with the mark it was sent,
    do_solr_query returns the IDs of the documents of rs, in order, and
    nothing else: the documents of last, whatever they are, are not read
    and not appended. *)
Theorem terminal_response_not_appended fuel query (w : World) s rs m s1 last s2 ids :
  let sorted := CommonParams.sort (SOLR_UNIQUE_KEY +:+ " asc") query in
  advancing sorted s "*" rs m s1 ->
  solr_search s1 (request sorted m) = (last, s2) ->
  nextCursorMark last = Some m ->
  comprehension doc_id (flat_map docs rs) = inr ids ->
  solr w = s ->
  (length rs < fuel)%nat ->
  do_solr_query fuel query w =
    Ok (ids, request sorted m)
       {| solr := s2; stdin := stdin w; rng := rng w;
          trace := trace w ++ exchanges sorted "*" rs ++ [EvSearch (request sorted m) last] |}.
Proof.
  intros sorted Hadv Hlast Hm Hids Hw Hfuel.
  unfold do_solr_query. fold sorted.
  replace fuel with (length rs + S (fuel - S (length rs)))%nat by lia.
  destruct (loop_advancing _ _ _ _ _ _ Hadv sorted [] w (S (fuel - S (length rs))) ids)
    as (sent' & Hsent' & ->); [done|done|done|].
  rewrite loop_stops with (r := last) (s := s2).
  - rewrite Hsent'. cbn [solr stdin rng trace app]. by rewrite <- app_assoc.
  - by rewrite Hsent'.
  - done.
Qed.

(** X1: a response without a mark ends the run with the empty list: the
    IDs gathered from the pages before it are dropped. *)
Theorem missing_mark_returns_nothing fuel query (w : World) s rs m s1 last s2 ids :
  let sorted := CommonParams.sort (SOLR_UNIQUE_KEY +:+ " asc") query in
  advancing sorted s "*" rs m s1 ->
  solr_search s1 (request sorted m) = (last, s2) ->
  nextCursorMark last = None ->
  comprehension doc_id (flat_map docs rs) = inr ids ->
  solr w = s ->
  (length rs < fuel)%nat ->
  do_solr_query fuel query w =
    Ok ([], request sorted m)
       {| solr := s2; stdin := stdin w; rng := rng w;
          trace := trace w ++ exchanges sorted "*" rs ++ [EvSearch (request sorted m) last] |}.
Proof.
  intros sorted Hadv Hlast Hm Hids Hw Hfuel.
  unfold do_solr_query. fold sorted.
  replace fuel with (length rs + S (fuel - S (length rs)))%nat by lia.
  destruct (loop_advancing _ _ _ _ _ _ Hadv sorted [] w (S (fuel - S (length rs))) ids)
    as (sent' & Hsent' & ->); [done|done|done|].
  rewrite <- Hsent' in Hlast.
  rewrite (loop_turn (fuel - S (length rs)) sent' m ([] ++ ids)
                     {| solr := s1; stdin := stdin w; rng := rng w;
                        trace := trace w ++ exchanges sorted "*" rs |} last s2 Hlast), Hm.
  rewrite Hsent'. cbn [solr stdin rng trace app]. by rewrite <- app_assoc.
Qed.

(** A document whose id is absent or cannot be read as a UUID, on any
    page that came with an advancing mark, makes do_solr_query raise. *)
Lemma unreadable_page_is_fatal fuel query (w : World) s rs m s1 d :
  let sorted := CommonParams.sort (SOLR_UNIQUE_KEY +:+ " asc") query in
  advancing sorted s "*" rs m s1 ->
  d ∈ flat_map docs rs ->
  malformed d ->
  solr w = s ->
  (length rs <= fuel)%nat ->
  exists e w', do_solr_query fuel query w = Raised e w'.
Proof.
  intros sorted Hadv Hd Hbad Hw Hfuel.
  destruct (malformed_raises _ Hbad) as [e0 He0].
  destruct (comprehension_raises _ _ _ _ Hd He0) as [e He].
  exists e. unfold do_solr_query. fold sorted.
  by apply (loop_unreadable _ _ _ _ _ _ Hadv sorted [] w fuel e).
Qed.

(* --------------------------------------------------------------------- *)
(* The construction of the query                                          *)
(* --------------------------------------------------------------------- *)

Lemma get_add_value name name' v se :
  CommonParams.get name (CommonParams.add_value name' v se) =
    if bool_decide (name = name')
    then Some (default [] (CommonParams.get name' se) ++ [v])
    else CommonParams.get name se.
Proof.
  unfold CommonParams.get, CommonParams.add_value. simpl.
  case_bool_decide as Hname.
  - subst. by rewrite lookup_insert_eq.
  - by rewrite lookup_insert_ne.
Qed.

(** The filters of the command line, added one after the other. *)
Lemma get_fq_filters fqs se :
  default [] (CommonParams.get "fq" (fold_left (fun se fq => CommonParams.fq fq se) fqs se)) =
    default [] (CommonParams.get "fq" se) ++ map PStr fqs.
Proof.
  revert se. induction fqs as [|f fqs IH]; intros se; simpl.
  - by rewrite app_nil_r.
  - rewrite IH. unfold CommonParams.fq. rewrite get_add_value.
    rewrite bool_decide_true by done. simpl. by rewrite <- app_assoc.
Qed.

Lemma get_other_filters name fqs se :
  name <> "fq" ->
  CommonParams.get name (fold_left (fun se fq => CommonParams.fq fq se) fqs se) =
    CommonParams.get name se.
Proof.
  intros Hname. revert se. induction fqs as [|f fqs IH]; intros se; simpl; [done|].
  rewrite IH. unfold CommonParams.fq. rewrite get_add_value.
  by rewrite bool_decide_false.
Qed.

(** X3: when neither a query nor JSON parameters are given (an empty
    text counts as not given), or when the JSON parameters cannot be
    read, delete_by_query raises before anything is done: no search, no
    prompt, no log, no deletion. *)
Theorem bad_configuration_contacts_no_store fuel args (w : World) :
  truthy (args_query args) = false ->
  truthy (args_jsonparams args) = false \/
  (exists e, SearchOptions_of_json (default "" (args_jsonparams args)) = inl e) ->
  exists e,
    delete_by_query fuel args w = Raised e w /\
    (truthy (args_jsonparams args) = false ->
     e = RuntimeError "either query or jsonparams is required").
Proof.
  intros Hq Hcases. unfold delete_by_query, bind at 1, build_query. rewrite Hq.
  destruct (truthy (args_jsonparams args)) eqn:Hj.
  - destruct Hcases as [|[e He]]; [done|]. rewrite He. simpl.
    exists e. split; [done|]. done.
  - simpl. eexists. split; [done|]. done.
Qed.

(** The parameters of a query built from a query text. *)
Lemma free_text_built text fqs r :
  let query :=
    CommonParams.rows r
      (fold_left (fun se fq => CommonParams.fq fq se) fqs
         (CommonParams.fl "id"
            (CommonParams.fl SOLR_UNIQUE_KEY (CommonParams.q text new_SearchOptions)))) in
  CommonParams.get "q" query = Some [PStr text] /\
  CommonParams.get "fl" query = Some [PStr SOLR_UNIQUE_KEY; PStr "id"] /\
  default [] (CommonParams.get "fq" query) = map PStr fqs /\
  CommonParams.get "rows" query = Some [PInt r] /\
  CommonParams.get "sort" query = None /\
  CommonParams.get "cursorMark" query = None.
Proof.
  intros query. unfold query, CommonParams.rows, CommonParams.fl, CommonParams.q.
  split; [|split; [|split; [|split; [|split]]]].
  - rewrite get_add_value, bool_decide_false by done.
    rewrite get_other_filters by done.
    rewrite !get_add_value. by repeat (case_bool_decide; [try done|try done]).
  - rewrite get_add_value, bool_decide_false by done.
    rewrite get_other_filters by done.
    rewrite !get_add_value. by repeat (case_bool_decide; [try done|try done]).
  - rewrite get_add_value, bool_decide_false by done.
    rewrite get_fq_filters.
    rewrite !get_add_value. by repeat (case_bool_decide; [try done|try done]).
  - rewrite get_add_value, bool_decide_true by done.
    rewrite get_other_filters by done.
    rewrite !get_add_value. by repeat (case_bool_decide; [try done|try done]).
  - rewrite get_add_value, bool_decide_false by done.
    rewrite get_other_filters by done.
    rewrite !get_add_value. by repeat (case_bool_decide; [try done|try done]).
  - rewrite get_add_value, bool_decide_false by done.
    rewrite get_other_filters by done.
    rewrite !get_add_value. by repeat (case_bool_decide; [try done|try done]).
Qed.

Lemma build_query_free_text args text :
  args_query args = Some text ->
  text <> "" ->
  build_query args =
    inr (CommonParams.rows (args_rows args)
           (fold_left (fun se fq => CommonParams.fq fq se)
              (default [] (args_filterquery args))
              (CommonParams.fl "id"
                 (CommonParams.fl SOLR_UNIQUE_KEY
                    (CommonParams.q text new_SearchOptions))))).
Proof.
  intros Hq Htext. unfold build_query, truthy. rewrite Hq.
  by rewrite bool_decide_false.
Qed.

(** X4: with a query text on the command line, the query that is built
    carries that text as q, the unique key and id as fl, the page size
    as rows and exactly the filters given as fq; it has no sort and no
    cursorMark yet.  The JSON parameters are not looked at, not even
    read. *)
Theorem free_text_query_parameters args text :
  args_query args = Some text ->
  text <> "" ->
  exists query,
    build_query args = inr query /\
    PStr text ∈ default [] (CommonParams.get "q" query) /\
    PStr SOLR_UNIQUE_KEY ∈ default [] (CommonParams.get "fl" query) /\
    PStr "id" ∈ default [] (CommonParams.get "fl" query) /\
    (forall f, PStr f ∈ default [] (CommonParams.get "fq" query) <->
               f ∈ default [] (args_filterquery args)) /\
    CommonParams.get "rows" query = Some [PInt (args_rows args)] /\
    CommonParams.get "sort" query = None /\
    CommonParams.get "cursorMark" query = None.
Proof.
  intros Hq Htext. eexists. split; [by apply build_query_free_text|].
  destruct (free_text_built text (default [] (args_filterquery args)) (args_rows args))
    as (Hq' & Hfl & Hfq & Hrows & Hsort & Hmark).
  rewrite Hq', Hfl, Hfq, Hrows, Hsort, Hmark. cbn [default].
  split; [by left|]. split; [by left|]. split; [by right; left|].
  split; [|done].
  intros f. split.
  - intros Hf. apply list_elem_of_fmap in Hf as (f' & [= ->] & Hf'). done.
  - intros Hf. apply list_elem_of_fmap. eauto.
Qed.

(** X5: without a query text, the query is the one read from the JSON
    parameters, with the unique key and id added to fl and the page size
    added to rows; every other parameter is as the JSON body gave it.
    The filters of the command line are not used: fq is the fq of the
    body, whatever filters are given. *)
Theorem json_query_keeps_the_body args text se :
  truthy (args_query args) = false ->
  args_jsonparams args = Some text ->
  text <> "" ->
  SearchOptions_of_json text = inr se ->
  exists query,
    build_query args = inr query /\
    (forall name, name <> "fl" -> name <> "rows" ->
                  CommonParams.get name query = CommonParams.get name se) /\
    PStr SOLR_UNIQUE_KEY ∈ default [] (CommonParams.get "fl" query) /\
    PStr "id" ∈ default [] (CommonParams.get "fl" query) /\
    PInt (args_rows args) ∈ default [] (CommonParams.get "rows" query).
Proof.
  intros Hq Hj Htext Hread. unfold build_query. rewrite Hq, Hj.
  cbn [truthy default from_option id]. rewrite bool_decide_false by done. cbn [negb].
  rewrite Hread. eexists. split; [reflexivity|].
  unfold CommonParams.rows, CommonParams.fl.
  split; [|split; [|split]].
  - intros name Hfl Hrows. rewrite !get_add_value.
    by rewrite !bool_decide_false by done.
  - rewrite get_add_value, bool_decide_false by done.
    rewrite !get_add_value, !bool_decide_true by done. cbn [default].
    apply elem_of_app. left. apply elem_of_app. right. by left.
  - rewrite get_add_value, bool_decide_false by done.
    rewrite get_add_value, bool_decide_true by done. cbn [default].
    apply elem_of_app. right. by left.
  - rewrite get_add_value, bool_decide_true by done. cbn [default].
    apply elem_of_app. right. by left.
Qed.

(* --------------------------------------------------------------------- *)
(* The gate on a terminal that runs dry, and what never deletes           *)
(* --------------------------------------------------------------------- *)

(** X6: when the count is not zero and no line of the terminal is one
    of y, n, s or the empty line, check_query prompts once for every
    line and once more, and raises EOFError; delete_by_query raises with
    it, having done nothing else. *)
Theorem gate_raises_at_end_of_input fuel args query (w : World) r s :
  build_query args = inr query ->
  solr_search (solr w) query = (r, s) ->
  numFound r <> 0 ->
  Forall (fun line => line ∉ ["y"; "n"; "s"; ""]) (stdin w) ->
  (length (stdin w) <= fuel)%nat ->
  let w' := {| solr := s; stdin := []; rng := rng w;
               trace := trace w ++ EvSearch query r
                          :: repeat (EvInput (AskContinue (numFound r)))
                                    (S (length (stdin w))) |} in
  check_query (S fuel) query w = Raised EOFError w' /\
  delete_by_query (S fuel) args w = Raised EOFError w'.
Proof.
  intros Hq Hs Hn Hjunk Hfuel w'.
  assert (check_query (S fuel) query w = Raised EOFError w') as Hcheck.
  { rewrite (check_query_step _ _ _ _ _ Hs Hn).
    rewrite <- (bind_assoc (input _) (fun c => ask_again fuel _ _ c) _).
    rewrite (bind_Raised _ _ _ _ _
               (prompt_until_eof _ (AskContinue (numFound r)) (stdin w) fuel
                                 {| solr := s; stdin := stdin w; rng := rng w;
                                    trace := trace w ++ [EvSearch query r] |}
                                 eq_refl Hjunk Hfuel)).
    unfold w'. cbn [solr stdin rng trace]. by rewrite <- app_assoc. }
  split; [done|].
  rewrite (delete_by_query_built _ _ _ _ Hq). by rewrite (bind_Raised _ _ _ _ _ Hcheck).
Qed.

Lemma quiet_refl (w : World) : quiet w w.
Proof.
  split.
  - exists []. by rewrite app_nil_r.
  - by exists [].
Qed.

Lemma quiet_trans (w1 w2 w3 : World) : quiet w1 w2 -> quiet w2 w3 -> quiet w1 w3.
Proof.
  intros [(evs1 & Ht1 & Hq1) (pre1 & Hin1)] [(evs2 & Ht2 & Hq2) (pre2 & Hin2)]. split.
  - exists (evs1 ++ evs2). rewrite Ht2, Ht1, <- app_assoc. split; [done|].
    by apply Forall_app.
  - exists (pre1 ++ pre2). by rewrite Hin1, Hin2, <- app_assoc.
Qed.

Lemma quiet_outcome_trans {A} (w1 w2 : World) (o : outcome SolrState A) :
  quiet w1 w2 -> quiet_outcome w2 o -> quiet_outcome w1 o.
Proof. destruct o; simpl; eauto using quiet_trans. Qed.

Lemma quiet_bind {A B} (m : M A) (k : A -> M B) (w : World) :
  quiet_outcome w (m w) ->
  (forall a w1, m w = Ok a w1 -> quiet_outcome w1 (k a w1)) ->
  quiet_outcome w (bind m k w).
Proof.
  intros Hm Hk. unfold bind. destruct (m w) as [a w1|e w1|] eqn:Hrun; simpl in *.
  - eapply quiet_outcome_trans; [exact Hm|]. by apply Hk.
  - done.
  - done.
Qed.

Lemma quiet_event (e : event) (w : World) :
  is_deletion e = false -> quiet w (logged w [e]).
Proof.
  intros He. split.
  - exists [e]. split; [done|]. by repeat constructor.
  - by exists [].
Qed.

Lemma search_quiet query (w : World) : quiet_outcome w (search query w).
Proof.
  unfold search. destruct (solr_search (solr w) query) as [r s]. simpl. split.
  - exists [EvSearch query r]. split; [done|]. by repeat constructor.
  - by exists [].
Qed.

Lemma input_quiet p (w : World) : quiet_outcome w (input p w).
Proof.
  unfold input. destruct (stdin w) as [|line rest] eqn:Hin; simpl.
  - split; [|by exists []]. exists [EvInput p]. split; [done|]. by repeat constructor.
  - split; [|by exists [line]]. exists [EvInput p]. split; [done|]. by repeat constructor.
Qed.

Lemma logging_info_quiet m (w : World) : quiet_outcome w (logging_info m w).
Proof. by apply quiet_event. Qed.

Lemma sample1_quiet {A} (population : list A) (w : World) :
  quiet_outcome w (sample1 population w).
Proof.
  unfold sample1. destruct population; simpl; [apply quiet_refl|]. split.
  - exists []. by rewrite app_nil_r.
  - by exists [].
Qed.

Lemma lift_quiet {A} (r : exn + A) (w : World) : quiet_outcome w (lift r w).
Proof. destruct r; simpl; apply quiet_refl. Qed.

Lemma ask_again_quiet fuel valid p line (w : World) :
  quiet_outcome w (ask_again fuel valid p line w).
Proof.
  revert line w. induction fuel as [|fuel IH]; intros line w; simpl.
  - case_bool_decide; simpl; [apply quiet_refl|done].
  - case_bool_decide; simpl; [apply quiet_refl|].
    apply quiet_bind; [apply input_quiet|]. intros. apply IH.
Qed.

Lemma confirm_delete_quiet fuel num_found (w : World) :
  quiet_outcome w (confirm_delete fuel num_found w).
Proof.
  unfold confirm_delete.
  apply quiet_bind; [apply input_quiet|]. intros.
  apply quiet_bind; [apply ask_again_quiet|]. intros. apply quiet_refl.
Qed.

(** The gate searches, prompts and logs; it deletes nothing. *)
Lemma check_query_quiet fuel query (w : World) :
  quiet_outcome w (check_query fuel query w).
Proof.
  revert w. induction fuel as [|fuel IH]; intros w; [done|].
  cbn [check_query].
  apply quiet_bind; [apply search_quiet|]. intros r w1 _.
  case_bool_decide.
  { apply quiet_bind; [apply logging_info_quiet|]. intros. apply quiet_refl. }
  apply quiet_bind; [apply input_quiet|]. intros l0 w2 _.
  apply quiet_bind; [apply ask_again_quiet|]. intros l w3 _.
  destruct (bool_decide (l = "y") || bool_decide (l = "")); [apply quiet_refl|].
  case_bool_decide; [apply quiet_refl|].
  apply quiet_bind; [apply sample1_quiet|]. intros picked w4 _.
  apply quiet_bind; [apply lift_quiet|]. intros key w5 _.
  apply quiet_bind; [apply search_quiet|]. intros shown w6 _.
  apply quiet_bind; [apply lift_quiet|]. intros d w7 _.
  apply quiet_bind; [apply logging_info_quiet|]. intros. apply IH.
Qed.

(** The paginator searches; it deletes nothing and reads no line. *)
Lemma do_solr_query_loop_quiet fuel query mark doc_ids (w : World) :
  quiet_outcome w (do_solr_query_loop fuel query mark doc_ids w).
Proof.
  revert query mark doc_ids w. induction fuel as [|fuel IH];
    intros query mark doc_ids w; [done|].
  cbn [do_solr_query_loop].
  apply quiet_bind; [apply search_quiet|]. intros r w1 _.
  destruct (nextCursorMark r) as [m|]; [|apply quiet_refl].
  case_bool_decide; [apply quiet_refl|].
  apply quiet_bind; [apply lift_quiet|]. intros. apply IH.
Qed.

(** A confirmation is only given by the line y. *)
Lemma confirm_delete_true_inv fuel num_found (w w' : World) :
  confirm_delete fuel num_found w = Ok true w' -> "y" ∈ stdin w.
Proof.
  unfold confirm_delete. intros H.
  apply bind_Ok_inv in H as (l0 & w1 & Hl0 & H).
  apply input_Ok_inv in Hl0 as (Hl0 & _).
  apply bind_Ok_inv in H as (l & w2 & Hl & H).
  apply ask_again_last in Hl as (_ & _ & _ & pre & Hpre).
  unfold ret in H. injection H as Hy _. apply bool_decide_eq_true in Hy. subst l.
  rewrite Hl0, Hpre. apply elem_of_app. right. by left.
Qed.

(** X7: whatever the index, the row store and the command line are:
    when no line of the terminal is y, a run of delete_by_query that
    ends, with or without an exception, has made no call that deletes,
    neither to the row store nor to the index. *)
Theorem no_yes_no_deletion fuel args (w : World) :
  "y" ∉ stdin w ->
  match delete_by_query fuel args w with
  | Ok _ w' | Raised _ w' =>
      exists evs, trace w' = trace w ++ evs /\ Forall (fun e => is_deletion e = false) evs
  | OutOfFuel => True
  end.
Proof.
  intros Hno.
  assert (quiet_outcome w (delete_by_query fuel args w)) as Hquiet.
  { unfold delete_by_query.
    apply quiet_bind; [apply lift_quiet|]. intros query w0 Hbuilt.
    assert (w0 = w) as ->.
    { unfold lift in Hbuilt. destruct (build_query args); [done|].
      unfold ret in Hbuilt. by injection Hbuilt. }
    pose proof (check_query_quiet fuel query w) as Hcheck.
    apply quiet_bind; [done|]. intros proceed w1 Hrun1. rewrite Hrun1 in Hcheck.
    destruct proceed; [|apply logging_info_quiet].
    apply quiet_bind; [apply logging_info_quiet|]. intros [] w2 Hrun2.
    assert (quiet w1 w2) as H12.
    { pose proof (logging_info_quiet MsgCollecting w1) as Hlog. by rewrite Hrun2 in Hlog. }
    pose proof (do_solr_query_loop_quiet
                  fuel (CommonParams.sort (SOLR_UNIQUE_KEY +:+ " asc") query) "*" [] w2)
      as Hpages.
    apply quiet_bind; [done|]. intros [ids query'] w3 Hrun3.
    unfold do_solr_query in Hrun3. rewrite Hrun3 in Hpages.
    apply quiet_bind; [apply confirm_delete_quiet|]. intros sure w4 Hrun4.
    destruct sure; [|apply logging_info_quiet].
    exfalso. apply Hno. apply confirm_delete_true_inv in Hrun4.
    destruct (quiet_trans _ _ _ (quiet_trans _ _ _ Hcheck H12) Hpages)
      as [_ (taken & ->)].
    apply elem_of_app. by right. }
  destruct (delete_by_query fuel args w); simpl in Hquiet; [|
    |done]; by destruct Hquiet.
Qed.

(** X8: check_query returns false in two cases only: the count query
    it searched last found nothing, or the last line it read was n. *)
Theorem gate_declines_on_n_or_no_results fuel query (w w' : World) :
  check_query fuel query w = Ok false w' ->
  (exists before r,
      trace w' = before ++ [EvSearch query r; EvLog INFO MsgNoResults] /\ numFound r = 0) \/
  (exists pre, stdin w = pre ++ "n" :: stdin w').
Proof.
  revert w. induction fuel as [|fuel IH]; intros w; [done|].
  destruct (solr_search (solr w) query) as [r s] eqn:Hs.
  destruct (decide (numFound r = 0)) as [Hn|Hn].
  { rewrite (check_query_no_results _ _ _ _ _ Hs Hn). intros [= <-].
    left. exists (trace w), r. done. }
  rewrite (check_query_step _ _ _ _ _ Hs Hn).
  intros H. apply bind_Ok_inv in H as (l0 & w1 & Hl0 & H).
  apply input_Ok_inv in Hl0 as (Hl0 & _). simpl in Hl0.
  apply bind_Ok_inv in H as (l & w2 & Hl & H).
  apply ask_again_last in Hl as (Hv & _ & _ & pre & Hpre).
  destruct (bool_decide (l = "y") || bool_decide (l = "")) eqn:Hyes; [done|].
  case_bool_decide as Hno.
  { unfold ret in H. injection H as <-. right. exists pre. by rewrite Hl0, Hpre, Hno. }
  apply bind_Ok_inv in H as (picked & w3 & Hp & H).
  assert (stdin w3 = stdin w2) as H3 by (by apply sample1_Ok_inv in Hp as (_ & _ & _ & ? & _)).
  apply bind_Ok_inv in H as (key & w4 & Hk & H).
  assert (w4 = w3) as ->.
  { unfold lift in Hk. destruct (getitem picked SOLR_UNIQUE_KEY); [done|].
    unfold ret in Hk. by injection Hk. }
  apply bind_Ok_inv in H as (shown & w5 & Hshown & H).
  destruct (search_inv (CommonParams.q (SOLR_UNIQUE_KEY +:+ ":" +:+ py_str key)
                                       new_SearchOptions) w3)
    as (r' & w5' & Hsearch & _ & H5 & _).
  rewrite Hsearch in Hshown. injection Hshown as -> ->.
  apply bind_Ok_inv in H as (d & w6 & Hd & H).
  assert (w6 = w5) as ->.
  { unfold lift in Hd. destruct (first_item (docs shown)); [done|].
    unfold ret in Hd. by injection Hd. }
  apply bind_Ok_inv in H as ([] & w7 & Hlog & H).
  unfold logging_info, emit in Hlog. injection Hlog as <-.
  apply IH in H as [Hnone|(pre' & Hpre')]; [by left|]. simpl in Hpre'.
  right. exists (pre ++ l :: pre').
  rewrite Hl0, Hpre. rewrite <- app_assoc. simpl. congruence.
Qed.

Lemma ends_bind {A B} (m : M A) (k : A -> M B) (w : World) :
  ends (m w) ->
  (forall a w1, m w = Ok a w1 -> ends (k a w1)) ->
  ends (bind m k w).
Proof.
  intros Hm Hk. unfold bind. destruct (m w) as [a w1|e w1|] eqn:Hrun; simpl in *; auto.
Qed.

Lemma quiet_length (w w' : World) : quiet w w' -> (length (stdin w') <= length (stdin w))%nat.
Proof. intros [_ (taken & ->)]. rewrite length_app. lia. Qed.

Lemma ask_again_ends fuel valid p line (w : World) :
  (length (stdin w) < fuel)%nat -> ends (ask_again fuel valid p line w).
Proof.
  revert line w. induction fuel as [|fuel IH]; intros line w Hfuel; simpl; [lia|].
  - case_bool_decide; [done|].
    apply ends_bind.
    + unfold input. by destruct (stdin w).
    + intros l w1 Hl. apply input_Ok_inv in Hl as (Hl & _). apply IH.
      rewrite Hl in Hfuel. simpl in Hfuel. lia.
Qed.

Lemma check_query_ends fuel query (w : World) :
  (length (stdin w) < fuel)%nat -> ends (check_query fuel query w).
Proof.
  revert w. induction fuel as [|fuel IH]; intros w Hfuel; [lia|].
  cbn [check_query].
  apply ends_bind; [unfold search; by destruct (solr_search (solr w) query)|].
  intros r w1 Hr.
  assert (stdin w1 = stdin w) as H1.
  { destruct (search_inv query w) as (r' & w1' & Hrun & _ & Hin & _). congruence. }
  case_bool_decide; [done|].
  apply ends_bind; [unfold input; by destruct (stdin w1)|].
  intros l0 w2 Hl0. apply input_Ok_inv in Hl0 as (Hl0 & _).
  assert (length (stdin w2) < fuel)%nat as H2.
  { rewrite <- H1, Hl0 in Hfuel. simpl in Hfuel. lia. }
  apply ends_bind; [apply ask_again_ends; lia|].
  intros l w3 Hl.
  assert (length (stdin w3) <= length (stdin w2))%nat as H3.
  { pose proof (ask_again_quiet fuel ["y"; "n"; "s"; ""] (AskContinue (numFound r)) l0 w2)
      as Hquiet. rewrite Hl in Hquiet. by apply quiet_length. }
  destruct (bool_decide (l = "y") || bool_decide (l = "")); [done|].
  case_bool_decide; [done|].
  apply ends_bind; [unfold sample1; by destruct (docs r)|].
  intros picked w4 Hp.
  apply sample1_Ok_inv in Hp as (_ & _ & _ & H4 & _).
  apply ends_bind; [by destruct (getitem picked SOLR_UNIQUE_KEY)|].
  intros key w5 Hk.
  assert (w5 = w4) as ->.
  { unfold lift in Hk. destruct (getitem picked SOLR_UNIQUE_KEY); [done|].
    unfold ret in Hk. by injection Hk. }
  cbv zeta.
  set (se := CommonParams.q (SOLR_UNIQUE_KEY +:+ ":" +:+ py_str key) new_SearchOptions).
  apply ends_bind; [unfold search; by destruct (solr_search (solr w4) se)|].
  intros shown w6 Hshown.
  assert (stdin w6 = stdin w4) as H6.
  { destruct (search_inv se w4) as (r' & w6' & Hrun & _ & Hin & _). congruence. }
  apply ends_bind; [by destruct (first_item (docs shown))|].
  intros d w7 Hd.
  assert (w7 = w6) as ->.
  { unfold lift in Hd. destruct (first_item (docs shown)); [done|].
    unfold ret in Hd. by injection Hd. }
  apply ends_bind; [done|].
  intros [] w8 Hlog. unfold logging_info, emit in Hlog. injection Hlog as <-.
  apply IH. cbn [stdin]. rewrite H6, H4. lia.
Qed.

(** X9: on a terminal with finitely many lines the two confirmations
    come to an end, whatever the index answers: every prompt takes a
    line, a round of sampling takes at least one, and when no line is
    left input raises.  With more fuel than there are lines, neither
    check_query nor confirm_delete is cut off. *)
Theorem confirmations_end_on_finite_input fuel query num_found (w : World) :
  (length (stdin w) < fuel)%nat ->
  ends (check_query fuel query w) /\ ends (confirm_delete fuel num_found w).
Proof.
  intros Hfuel. split; [by apply check_query_ends|].
  unfold confirm_delete.
  apply ends_bind; [unfold input; by destruct (stdin w)|].
  intros l0 w1 Hl0. apply input_Ok_inv in Hl0 as (Hl0 & _).
  apply ends_bind; [|done].
  apply ask_again_ends. rewrite Hl0 in Hfuel. simpl in Hfuel. lia.
Qed.

(* --------------------------------------------------------------------- *)
(* What the paginator sends, and when it does not stop                    *)
(* --------------------------------------------------------------------- *)

Lemma loop_requests query fuel :
  forall sent mark doc_ids (w : World) ids query' w',
    (forall x, request sent x = request query x) ->
    do_solr_query_loop fuel sent mark doc_ids w = Ok (ids, query') w' ->
    (exists m, query' = request query m) /\
    stdin w' = stdin w /\ rng w' = rng w /\
    exists evs,
      trace w' = trace w ++ evs /\
      Forall (fun e => exists m r, e = EvSearch (request query m) r) evs.
Proof.
  induction fuel as [|fuel IH]; intros sent mark doc_ids w ids query' w' Hsent; [done|].
  destruct (solr_search (solr w) (request sent mark)) as [r s] eqn:Hs.
  rewrite (loop_turn _ _ _ _ _ _ _ Hs). rewrite Hsent.
  assert (Forall (fun e => exists m r, e = EvSearch (request query m) r)
                 [EvSearch (request query mark) r]) as Hone
      by (repeat constructor; eauto).
  destruct (nextCursorMark r) as [m1|].
  - case_bool_decide.
    + intros [= <- <- <-]. split; [eauto|]. split; [done|]. split; [done|]. eauto.
    + destruct (comprehension doc_id (docs r)) as [|ids1]; [done|].
      intros Hrun. apply IH in Hrun as (Hq & Hin & Hrng & evs & Ht & Hevs).
      * split; [done|]. split; [done|]. split; [done|].
        exists (EvSearch (request query mark) r :: evs). split.
        -- rewrite Ht. cbn [trace]. by rewrite <- app_assoc.
        -- by constructor; [eauto|].
      * intros x. by rewrite request_request.
  - intros [= <- <- <-]. split; [eauto|]. split; [done|]. split; [done|]. eauto.
Qed.

(** When the loop returns, it has searched with the query and one mark
    each time, first with the mark it was started with; the query it
    returns is the query of its last search, and the response to that
    search carried no mark or the mark it was sent. *)
Lemma loop_requests_last query fuel :
  forall sent mark doc_ids (w : World) ids query' w',
    (forall x, request sent x = request query x) ->
    do_solr_query_loop fuel sent mark doc_ids w = Ok (ids, query') w' ->
    exists evs m r,
      trace w' = trace w ++ evs ++ [EvSearch query' r] /\
      query' = request query m /\
      (nextCursorMark r = None \/ nextCursorMark r = Some m) /\
      Forall (page_of query) (evs ++ [EvSearch query' r]) /\
      exists r0, head (evs ++ [EvSearch query' r]) = Some (EvSearch (request query mark) r0).
Proof.
  induction fuel as [|fuel IH]; intros sent mark doc_ids w ids query' w' Hsent; [done|].
  destruct (solr_search (solr w) (request sent mark)) as [r s] eqn:Hs.
  rewrite (loop_turn _ _ _ _ _ _ _ Hs). rewrite Hsent. rewrite Hsent in Hs.
  assert (page_of query (EvSearch (request query mark) r)) as Hone.
  { exists mark, r, (solr w). by rewrite Hs. }
  destruct (nextCursorMark r) as [m1|] eqn:Hm.
  - case_bool_decide as Hsame.
    + intros [= <- <- <-]. exists [], mark, r. subst m1.
      split; [done|]. split; [done|]. split; [by right|].
      split; [by repeat constructor|]. by exists r.
    + destruct (comprehension doc_id (docs r)) as [|ids1]; [done|].
      intros Hrun.
      apply IH in Hrun as (evs & m & r' & Ht & Hq & Hlast & Hevs & _).
      * exists (EvSearch (request query mark) r :: evs), m, r'.
        split; [rewrite Ht; cbn [trace]; by rewrite <- app_assoc|].
        split; [done|]. split; [done|].
        split; [by constructor|]. by exists r.
      * intros x. by rewrite request_request.
  - intros [= <- <- <-]. exists [], mark, r.
    split; [done|]. split; [done|]. split; [by left|].
    split; [by repeat constructor|]. by exists r.
Qed.

(** X10: when do_solr_query returns, the query object it hands back is
    the query of the last search it sent: the query it was given with
    the ascending sort by the unique key among its sort values and, as
    cursorMark, the one mark of that last search, to which the index
    answered with no mark or with that same mark; every other parameter
    is as it was given.  All it did was search, first with the mark *,
    each time with that query and one mark, and it read no line of the
    terminal. *)
Theorem paginator_changes_sort_and_mark_only fuel query (w : World) ids query' w' :
  do_solr_query fuel query w = Ok (ids, query') w' ->
  let sorted := CommonParams.sort (SOLR_UNIQUE_KEY +:+ " asc") query in
  (exists evs m r,
      trace w' = trace w ++ evs ++ [EvSearch query' r] /\
      query' = request sorted m /\
      CommonParams.get "cursorMark" query' = Some [PStr m] /\
      (nextCursorMark r = None \/ nextCursorMark r = Some m) /\
      Forall (page_of sorted) (evs ++ [EvSearch query' r]) /\
      exists r0, head (evs ++ [EvSearch query' r]) = Some (EvSearch (request sorted "*") r0)) /\
  (forall v, v ∈ default [] (CommonParams.get "sort" query') <->
             v ∈ default [] (CommonParams.get "sort" query) \/
             v = PStr (SOLR_UNIQUE_KEY +:+ " asc")) /\
  (forall name, name <> "sort" -> name <> "cursorMark" ->
                CommonParams.get name query' = CommonParams.get name query) /\
  stdin w' = stdin w.
Proof.
  intros Hrun sorted. unfold do_solr_query in Hrun. fold sorted in Hrun.
  pose proof (loop_requests sorted _ _ _ _ _ _ _ _ (fun x => eq_refl) Hrun)
    as (_ & Hin & _).
  apply (loop_requests_last sorted) in Hrun
    as (evs & m & r & Ht & -> & Hlast & Hevs & Hfirst); [|done].
  split; [|split; [|split; [|done]]].
  - exists evs, m, r. split; [done|]. split; [done|].
    split; [apply request_cursorMark|]. by split.
  - intros v. rewrite request_other by done. unfold sorted, CommonParams.sort.
    rewrite get_add_value, bool_decide_true by done.
    change (default [] (Some ?l)) with l.
    rewrite elem_of_app, list_elem_of_singleton. done.
  - intros name Hsort Hmark. rewrite request_other by done.
    unfold sorted, CommonParams.sort. rewrite get_add_value.
    by rewrite bool_decide_false.
Qed.

Lemma loop_goes_on (I : SolrState -> string -> Prop) query :
  (forall s m, I s m ->
               exists r s' m' ids,
                 solr_search s (request query m) = (r, s') /\
                 nextCursorMark r = Some m' /\
                 m' <> m /\
                 comprehension doc_id (docs r) = inr ids /\
                 I s' m') ->
  forall fuel sent mark doc_ids (w : World),
    (forall x, request sent x = request query x) ->
    I (solr w) mark ->
    do_solr_query_loop fuel sent mark doc_ids w = OutOfFuel.
Proof.
  intros Hstep. induction fuel as [|fuel IH]; intros sent mark doc_ids w Hsent HI; [done|].
  destruct (Hstep _ _ HI) as (r & s' & m' & ids & Hs & Hm & Hne & Hids & HI').
  rewrite <- Hsent in Hs.
  rewrite (loop_turn _ _ _ _ _ _ _ Hs), Hm. rewrite bool_decide_false by done.
  rewrite Hids. apply IH; [|done].
  intros x. by rewrite request_request.
Qed.

(** X11: the loop of do_solr_query has no bound of its own.  Against
    an index that answers every request of the run with documents that
    can be read and a mark other than the one it was sent, the run is
    cut off whatever fuel it is given: do_solr_query neither returns
    nor raises. *)
Theorem pagination_goes_on_while_marks_advance (I : SolrState -> string -> Prop)
        query (w : World) :
  let sorted := CommonParams.sort (SOLR_UNIQUE_KEY +:+ " asc") query in
  I (solr w) "*" ->
  (forall s m, I s m ->
               exists r s' m' ids,
                 solr_search s (request sorted m) = (r, s') /\
                 nextCursorMark r = Some m' /\
                 m' <> m /\
                 comprehension doc_id (docs r) = inr ids /\
                 I s' m') ->
  forall fuel, do_solr_query fuel query w = OutOfFuel.
Proof.
  intros sorted Hstart Hstep fuel. unfold do_solr_query. fold sorted.
  by apply (loop_goes_on I sorted Hstep).
Qed.

(** However the loop ends, it has only searched: no line was read,
    nothing was logged, nothing was deleted. *)
Lemma loop_only_searches fuel :
  forall sent mark doc_ids (w : World),
    match do_solr_query_loop fuel sent mark doc_ids w with
    | Ok _ w' | Raised _ w' =>
        stdin w' = stdin w /\
        exists evs, trace w' = trace w ++ evs /\
                    Forall (fun e => exists q r, e = EvSearch q r) evs
    | OutOfFuel => True
    end.
Proof.
  induction fuel as [|fuel IH]; intros sent mark doc_ids w; [done|].
  destruct (solr_search (solr w) (request sent mark)) as [r s] eqn:Hs.
  rewrite (loop_turn _ _ _ _ _ _ _ Hs).
  assert (Forall (fun e => exists q r', e = EvSearch q r') [EvSearch (request sent mark) r])
    as Hone by (repeat constructor; eauto).
  destruct (nextCursorMark r) as [m1|]; [|by eauto].
  case_bool_decide; [by eauto|].
  destruct (comprehension doc_id (docs r)) as [e|ids1]; [by eauto|].
  specialize (IH (request sent mark) m1 (doc_ids ++ ids1)
                 {| solr := s; stdin := stdin w; rng := rng w;
                    trace := trace w ++ [EvSearch (request sent mark) r] |}).
  destruct (do_solr_query_loop fuel (request sent mark) m1 (doc_ids ++ ids1) _)
    as [res w'|e w'|]; [| |done].
  - destruct IH as (Hin & evs & Ht & Hevs). split; [done|].
    exists (EvSearch (request sent mark) r :: evs). split.
    + rewrite Ht. cbn [trace]. by rewrite <- app_assoc.
    + constructor; [eauto|done].
  - destruct IH as (Hin & evs & Ht & Hevs). split; [done|].
    exists (EvSearch (request sent mark) r :: evs). split.
    + rewrite Ht. cbn [trace]. by rewrite <- app_assoc.
    + constructor; [eauto|done].
Qed.

End Program.

(* --------------------------------------------------------------------- *)
(* The row store behind the driver                                        *)
(* --------------------------------------------------------------------- *)

Section RowStoreFailure.

Context {SolrState : Type}.
Variable cassandra_table : string.

(** The answer of the row store to the deletion of each record. *)
Variable row_store : uuid -> bool * string.

Local Abbreviation statement := ("DELETE FROM " +:+ cassandra_table +:+ " WHERE tile_id=?").

Lemma first_failure_raised doc_ids doc_id :
  doc_id ∈ doc_ids ->
  fst (row_store doc_id) = false ->
  exists failed,
    failed ∈ doc_ids /\ fst (row_store failed) = false /\
    Cassandra.execute_concurrent_with_args row_store true statement doc_ids =
      inl (DriverError (snd (row_store failed))).
Proof.
  intros Hin Hfail. unfold Cassandra.execute_concurrent_with_args.
  destruct (List.find (fun sr : bool * string => negb (fst sr)) (map row_store doc_ids))
    as [sr|] eqn:Hfind.
  - apply List.find_some in Hfind as [Hsr Hneg].
    apply in_map_iff in Hsr as (failed & <- & Hfailed).
    exists failed. split; [by apply list_elem_of_In|]. split; [|done].
    by apply negb_true_iff.
  - exfalso.
    assert (Hnone : negb (fst (row_store doc_id)) = false).
    { apply (List.find_none _ _ Hfind (row_store doc_id)).
      apply in_map. by apply list_elem_of_In. }
    by rewrite Hfail in Hnone.
Qed.

(** C7, on the code as it calls the driver: when the deletion of a
    record of the roster fails in the row store, the driver, called
    without raise_on_first_error, raises; do_delete raises with it after
    the submission: no warning is logged, neither the bulk delete nor
    the commit is issued on the index, and no roster is returned.  Had
    the call passed raise_on_first_error=False, the same failures would
    be logged as warnings, the index would be deleted from and
    committed, and the whole roster returned. *)
Theorem row_store_failure_is_raised doc_ids query (w : World SolrState) doc_id :
  doc_id ∈ doc_ids ->
  fst (row_store doc_id) = false ->
  let submitted := [EvLog INFO MsgCassandraDelete;
                    EvPrepare statement;
                    EvExecuteConcurrent statement doc_ids] in
  (exists failed,
      failed ∈ doc_ids /\ fst (row_store failed) = false /\
      do_delete cassandra_table (Cassandra.execute_concurrent_with_args row_store true)
                doc_ids query w =
        Raised (DriverError (snd (row_store failed)))
               {| solr := solr w; stdin := stdin w; rng := rng w;
                  trace := trace w ++ submitted |}) /\
  do_delete cassandra_table (Cassandra.execute_concurrent_with_args row_store false)
            doc_ids query w =
    Ok doc_ids
       {| solr := solr w; stdin := stdin w; rng := rng w;
          trace := trace w
                     ++ submitted
                     ++ warnings (map row_store doc_ids)
                     ++ [EvLog INFO MsgSolrDelete;
                         EvSolrDelete query false;
                         EvSolrCommit] |} /\
  EvLog WARNING (MsgCouldNotDelete (snd (row_store doc_id)))
    ∈ warnings (map row_store doc_ids).
Proof.
  intros Hin Hfail submitted. split; [|split].
  - destruct (first_failure_raised doc_ids doc_id Hin Hfail) as (failed & Hf & Hff & Hdrv).
    exists failed. split; [done|]. split; [done|].
    by apply do_delete_driver_raises.
  - by apply do_delete_reported.
  - apply warnings_failure. apply list_elem_of_fmap. exists doc_id. split; [|done].
    by destruct (row_store doc_id) as [[] result].
Qed.

End RowStoreFailure.

(* --------------------------------------------------------------------- *)
(* Pagination over a result set that does not change                      *)
(* --------------------------------------------------------------------- *)

Section StablePagination.

Variable SOLR_UNIQUE_KEY : string.
Variable index : list (gmap string jvalue).
Variable UUID : string -> option uuid.

Local Abbreviation key_of := (StableIndex.key_of SOLR_UNIQUE_KEY).
Local Abbreviation key_lt := (StableIndex.key_lt SOLR_UNIQUE_KEY).
Local Abbreviation after := (StableIndex.after SOLR_UNIQUE_KEY index).
Local Abbreviation respond := (StableIndex.respond SOLR_UNIQUE_KEY index).
Local Abbreviation solr_search := (StableIndex.solr_search SOLR_UNIQUE_KEY index).
Local Abbreviation do_solr_query_loop := (do_solr_query_loop solr_search UUID).
Local Abbreviation do_solr_query := (do_solr_query solr_search SOLR_UNIQUE_KEY UUID).

Lemma ltb_irrefl (k : string) : String.ltb k k = false.
Proof.
  unfold String.ltb. pose proof (String.compare_antisym k k) as H.
  by destruct (String.compare k k).
Qed.

Lemma ltb_asym (a b : string) : String.ltb a b = true -> String.ltb b a = false.
Proof.
  unfold String.ltb. rewrite (String.compare_antisym b a).
  by destruct (String.compare a b).
Qed.

Lemma filter_none {A} (f : A -> bool) (l : list A) :
  Forall (fun x => f x = false) l -> List.filter f l = [].
Proof. induction 1 as [|x l Hx _ IH]; simpl; [done|]. by rewrite Hx. Qed.

Lemma filter_all {A} (f : A -> bool) (l : list A) :
  Forall (fun x => f x = true) l -> List.filter f l = l.
Proof. induction 1 as [|x l Hx _ IH]; simpl; [done|]. by rewrite Hx, IH. Qed.

(** In a list in ascending key order, the documents after the key of d
    are the ones that follow d. *)
Lemma filter_after_sorted l1 d l2 :
  StronglySorted key_lt (l1 ++ d :: l2) ->
  List.filter (fun x => String.ltb (key_of d) (key_of x)) (l1 ++ d :: l2) = l2.
Proof.
  intros Hsorted. rewrite List.filter_app. simpl. rewrite ltb_irrefl.
  rewrite filter_none, filter_all; [done| |].
  - apply StronglySorted_app_1_r, StronglySorted_cons in Hsorted as [Hd _].
    by eapply Forall_impl; [exact Hd|].
  - apply Forall_forall. intros x Hx. apply ltb_asym.
    apply (StronglySorted_app_1_elem_of _ _ _ _ _ Hsorted Hx). by left.
Qed.

Lemma after_start : after "*" = index.
Proof. unfold StableIndex.after. by rewrite bool_decide_true. Qed.

Lemma after_mark k :
  after (StableIndex.mark_after k) =
    List.filter (fun x => String.ltb k (key_of x)) index.
Proof. unfold StableIndex.after. by rewrite bool_decide_false. Qed.

(** A mark handed out for a document that comes after the mark sent is a
    new mark. *)
Lemma mark_after_new mark d :
  d ∈ after mark -> StableIndex.mark_after (key_of d) <> mark.
Proof.
  intros Hd Heq. unfold StableIndex.after in Hd.
  case_bool_decide as Hstar; [by subst mark|].
  apply list_elem_of_In, List.filter_In in Hd as [_ Hd].
  rewrite <- Heq in Hd. simpl in Hd. by rewrite ltb_irrefl in Hd.
Qed.

Lemma respond_request rows sent mark :
  CommonParams.get "rows" sent = Some [PInt (Z.of_nat rows)] ->
  CommonParams.get "sort" sent = Some [PStr (SOLR_UNIQUE_KEY +:+ " asc")] ->
  respond (request sent mark) =
    let page := take rows (after mark) in
    {| numFound := Z.of_nat (length index);
       docs := page;
       nextCursorMark := Some (match last page with
                               | Some d => StableIndex.mark_after (key_of d)
                               | None => mark
                               end) |}.
Proof.
  intros sent_rows sent_sort. unfold StableIndex.respond, StableIndex.rows_of.
  rewrite request_cursorMark, !request_other by done.
  rewrite sent_rows, sent_sort, Nat2Z.id. by rewrite bool_decide_true.
Qed.

Lemma sorted_NoDup l : StronglySorted key_lt l -> NoDup l.
Proof.
  induction 1 as [|x l _ IH Hx]; constructor; [|done].
  intros Hin. rewrite Forall_forall in Hx. specialize (Hx _ Hin).
  unfold StableIndex.key_lt in Hx. by rewrite ltb_irrefl in Hx.
Qed.

Lemma comprehension_elem {A B} (f : A -> exn + B) (l : list A) ys y :
  comprehension f l = inr ys -> y ∈ ys -> exists x, x ∈ l /\ f x = inr y.
Proof.
  revert ys. induction l as [|x l IH]; intros ys; simpl.
  - intros [= <-] Hy. by apply elem_of_nil in Hy.
  - destruct (f x) as [|y0] eqn:Hx; [done|].
    destruct (comprehension f l) as [|ys0]; [done|].
    intros [= <-] Hy. apply elem_of_cons in Hy as [->|Hy].
    + exists x. split; [by left|done].
    + destruct (IH _ eq_refl Hy) as (x' & Hx' & Hfx'). exists x'. split; [by right|done].
Qed.

(** Documents with different IDs, each read once, give IDs without
    repetition. *)
Lemma comprehension_NoDup {A B} (f : A -> exn + B) (l : list A) ys :
  comprehension f l = inr ys ->
  NoDup l ->
  (forall x1 x2, x1 ∈ l -> x2 ∈ l -> f x1 = f x2 -> x1 = x2) ->
  NoDup ys.
Proof.
  revert ys. induction l as [|x l IH]; intros ys; simpl.
  - intros [= <-] _ _. constructor.
  - destruct (f x) as [|y] eqn:Hx; [done|].
    destruct (comprehension f l) as [|ys0] eqn:Hl; [done|].
    intros [= <-] Hnd Hinj. apply NoDup_cons in Hnd as [Hnotin Hnd].
    constructor.
    + intros Hy. destruct (comprehension_elem _ _ _ _ Hl Hy) as (x' & Hx' & Hfx').
      assert (x = x') as <-; [|done].
      apply Hinj; [by left|by right|congruence].
    + apply (IH _ eq_refl Hnd). intros x1 x2 H1 H2. apply Hinj; by right.
Qed.

(** The loop over the documents that are left: it returns the IDs of all
    of them, in their order, and its searches bring back each of them
    once. *)
Lemma stable_loop rows :
  (0 < rows)%nat ->
  StronglySorted key_lt index ->
  forall fuel pre rest mark sent doc_ids (w : World unit) ids,
    index = pre ++ rest ->
    after mark = rest ->
    CommonParams.get "rows" sent = Some [PInt (Z.of_nat rows)] ->
    CommonParams.get "sort" sent = Some [PStr (SOLR_UNIQUE_KEY +:+ " asc")] ->
    comprehension (doc_id UUID) rest = inr ids ->
    (length rest < fuel)%nat ->
    exists w' evs final,
      do_solr_query_loop fuel sent mark doc_ids w = Ok (doc_ids ++ ids, final) w' /\
      stdin w' = stdin w /\
      trace w' = trace w ++ evs /\
      fetched evs = rest.
Proof.
  intros Hrows Hsorted. induction fuel as [|fuel IH];
    intros pre rest mark sent doc_ids w ids Hindex Hafter Hr Hs Hids Hfuel; [lia|].
  assert (solr_search (solr w) (request sent mark) = (respond (request sent mark), tt))
    as Hsearch by done.
  rewrite (loop_turn _ _ _ _ _ _ _ _ _ Hsearch).
  rewrite (respond_request _ _ _ Hr Hs). cbn [nextCursorMark docs]. rewrite Hafter.
  destruct (last (take rows rest)) as [d|] eqn:Hlast.
  - (* a page with documents: its mark is new *)
    assert (d ∈ take rows rest) as Hd by (by apply last_Some_elem_of).
    assert (d ∈ after mark) as Hd'.
    { rewrite Hafter. rewrite <- (take_drop rows rest). apply elem_of_app. by left. }
    rewrite bool_decide_false by (by apply mark_after_new).
    rewrite <- (take_drop rows rest), comprehension_app in Hids.
    destruct (comprehension (doc_id UUID) (take rows rest)) as [|ids1] eqn:H1; [done|].
    destruct (comprehension (doc_id UUID) (drop rows rest)) as [|ids2] eqn:H2; [done|].
    injection Hids as <-.
    apply last_Some in Hlast as [page Hpage].
    edestruct (IH (pre ++ take rows rest) (drop rows rest)
                  (StableIndex.mark_after (key_of d)) (request sent mark)
                  (doc_ids ++ ids1)) as (w' & evs & final & Hrun & Hin & Htrace & Hfetched);
      [| | | |exact H2| |].
    + rewrite <- app_assoc. by rewrite take_drop.
    + rewrite after_mark.
      assert (index = (pre ++ page) ++ d :: drop rows rest) as Hsplit.
      { rewrite Hindex. rewrite <- (take_drop rows rest) at 1. rewrite Hpage.
        by rewrite <- !app_assoc. }
      rewrite Hsplit. apply filter_after_sorted. by rewrite <- Hsplit.
    + by rewrite request_other.
    + by rewrite request_other.
    + rewrite length_drop.
      assert (0 < length rest)%nat; [|lia].
      destruct rest; [|simpl; lia]. by rewrite take_nil in Hd; apply elem_of_nil in Hd.
    + rewrite Hrun. eexists w', (_ :: evs), final. split; [by rewrite <- app_assoc|].
      split; [done|]. split.
      * rewrite Htrace. cbn [trace]. by rewrite <- app_assoc.
      * cbn [fetched flat_map docs]. fold (fetched evs). rewrite Hfetched.
        apply take_drop.
  - (* no document left: the mark comes back *)
    apply last_None in Hlast.
    assert (rest = []) as ->.
    { destruct rest as [|d rest]; [done|]. destruct rows; [lia|done]. }
    simpl in Hids. injection Hids as <-.
    rewrite bool_decide_true by done.
    eexists _, [_], _. rewrite app_nil_r. split; [done|]. split; [done|]. split; [done|].
    simpl. by rewrite take_nil.
Qed.

(** C1: over a result set that does not change, given in ascending order
    of the unique key, whose documents all carry a readable id and no two
    of which carry the same Record ID, and for every page size of at
    least 1 (so for every page size from 1 to the size n of the result
    set), do_solr_query returns the Record IDs of all the documents, in
    the order of the unique key: n IDs, none twice.  Its searches bring
    every document back exactly once. *)
Theorem stable_pagination_complete rows query fuel (w : World unit) ids :
  StronglySorted key_lt index ->
  comprehension (doc_id UUID) index = inr ids ->
  (forall d1 d2, d1 ∈ index -> d2 ∈ index -> doc_id UUID d1 = doc_id UUID d2 -> d1 = d2) ->
  (1 <= rows)%nat ->
  CommonParams.get "rows" query = Some [PInt (Z.of_nat rows)] ->
  CommonParams.get "sort" query = None ->
  (length index < fuel)%nat ->
  exists w' evs final,
    do_solr_query fuel query w = Ok (ids, final) w' /\
    length ids = length index /\
    NoDup ids /\
    stdin w' = stdin w /\
    trace w' = trace w ++ evs /\
    fetched evs = index.
Proof.
  intros Hsorted Hids Hinj Hrows Hr Hs Hfuel.
  destruct (stable_loop rows Hrows Hsorted fuel [] index "*"
              (CommonParams.sort (SOLR_UNIQUE_KEY +:+ " asc") query) [] w ids)
    as (w' & evs & final & Hrun & Hin & Htrace & Hfetched);
    [done|apply after_start| | |done|done|].
  - unfold CommonParams.sort, CommonParams.add_value, CommonParams.get in *. simpl.
    by rewrite lookup_insert_ne.
  - unfold CommonParams.sort, CommonParams.add_value, CommonParams.get in *. simpl.
    by rewrite lookup_insert_eq, Hs.
  - exists w', evs, final. split; [done|]. split; [by eapply comprehension_length|].
    split; [|done].
    eapply comprehension_NoDup; [exact Hids|by apply sorted_NoDup|done].
Qed.

(** The loop over documents that are left and of which one cannot be
    read: it raises. *)
Lemma stable_loop_raises rows :
  (0 < rows)%nat ->
  StronglySorted key_lt index ->
  forall fuel pre rest mark sent doc_ids (w : World unit) e,
    index = pre ++ rest ->
    after mark = rest ->
    CommonParams.get "rows" sent = Some [PInt (Z.of_nat rows)] ->
    CommonParams.get "sort" sent = Some [PStr (SOLR_UNIQUE_KEY +:+ " asc")] ->
    comprehension (doc_id UUID) rest = inl e ->
    (length rest < fuel)%nat ->
    exists w', do_solr_query_loop fuel sent mark doc_ids w = Raised e w'.
Proof.
  intros Hrows Hsorted. induction fuel as [|fuel IH];
    intros pre rest mark sent doc_ids w e Hindex Hafter Hr Hs He Hfuel; [lia|].
  assert (solr_search (solr w) (request sent mark) = (respond (request sent mark), tt))
    as Hsearch by done.
  rewrite (loop_turn _ _ _ _ _ _ _ _ _ Hsearch).
  rewrite (respond_request _ _ _ Hr Hs). cbn [nextCursorMark docs]. rewrite Hafter.
  destruct (last (take rows rest)) as [d|] eqn:Hlast.
  - assert (d ∈ take rows rest) as Hd by (by apply last_Some_elem_of).
    assert (d ∈ after mark) as Hd'.
    { rewrite Hafter. rewrite <- (take_drop rows rest). apply elem_of_app. by left. }
    rewrite bool_decide_false by (by apply mark_after_new).
    rewrite <- (take_drop rows rest), comprehension_app in He.
    destruct (comprehension (doc_id UUID) (take rows rest)) as [e1|ids1] eqn:H1.
    { injection He as ->. eauto. }
    destruct (comprehension (doc_id UUID) (drop rows rest)) as [e2|] eqn:H2; [|done].
    injection He as ->.
    apply last_Some in Hlast as [page Hpage].
    apply (IH (pre ++ take rows rest) (drop rows rest)); [| | | |exact H2|].
    + rewrite <- app_assoc. by rewrite take_drop.
    + rewrite after_mark.
      assert (index = (pre ++ page) ++ d :: drop rows rest) as Hsplit.
      { rewrite Hindex. rewrite <- (take_drop rows rest) at 1. rewrite Hpage.
        by rewrite <- !app_assoc. }
      rewrite Hsplit. apply filter_after_sorted. by rewrite <- Hsplit.
    + by rewrite request_other.
    + by rewrite request_other.
    + rewrite length_drop.
      assert (0 < length rest)%nat; [|lia].
      destruct rest; [|simpl; lia]. by rewrite take_nil in Hd; apply elem_of_nil in Hd.
  - apply last_None in Hlast.
    assert (rest = []) as ->.
    { destruct rest as [|d rest]; [done|]. destruct rows; [lia|done]. }
    done.
Qed.

Lemma stable_malformed_is_fatal rows query fuel (w : World unit) d :
  StronglySorted key_lt index ->
  d ∈ index ->
  malformed UUID d ->
  (1 <= rows)%nat ->
  CommonParams.get "rows" query = Some [PInt (Z.of_nat rows)] ->
  CommonParams.get "sort" query = None ->
  (length index < fuel)%nat ->
  exists e w', do_solr_query fuel query w = Raised e w'.
Proof.
  intros Hsorted Hd Hbad Hrows Hr Hs Hfuel.
  destruct (malformed_raises _ _ Hbad) as [e0 He0].
  destruct (comprehension_raises _ _ _ _ Hd He0) as [e He].
  exists e.
  apply (stable_loop_raises rows Hrows Hsorted fuel [] index "*"
           (CommonParams.sort (SOLR_UNIQUE_KEY +:+ " asc") query) [] w e);
    [done|apply after_start| | |done|done].
  - unfold CommonParams.sort, CommonParams.add_value, CommonParams.get in *. simpl.
    by rewrite lookup_insert_ne.
  - unfold CommonParams.sort, CommonParams.add_value, CommonParams.get in *. simpl.
    by rewrite lookup_insert_eq, Hs.
Qed.

Lemma pages_needed_step n rows :
  (0 < rows)%nat -> (0 < n)%nat ->
  pages_needed n rows = S (pages_needed (n - rows) rows).
Proof.
  intros Hrows Hn. unfold pages_needed.
  destruct (le_lt_dec rows n) as [Hle|Hlt].
  - replace (n + rows - 1)%nat with ((n - rows + rows - 1) + 1 * rows)%nat by lia.
    rewrite Nat.div_add by lia. lia.
  - replace (n - rows)%nat with 0%nat by lia.
    rewrite (Nat.div_small (0 + rows - 1) rows) by lia.
    symmetry. apply (Nat.div_unique _ _ _ (n - 1)); lia.
Qed.

(** The loop over the documents that are left searches once for every
    page they fill, and once more to learn that nothing is left. *)
Lemma stable_loop_searches rows :
  (0 < rows)%nat ->
  StronglySorted key_lt index ->
  forall fuel pre rest mark sent doc_ids (w : World unit) ids,
    index = pre ++ rest ->
    after mark = rest ->
    CommonParams.get "rows" sent = Some [PInt (Z.of_nat rows)] ->
    CommonParams.get "sort" sent = Some [PStr (SOLR_UNIQUE_KEY +:+ " asc")] ->
    comprehension (doc_id UUID) rest = inr ids ->
    (length rest < fuel)%nat ->
    exists result w',
      do_solr_query_loop fuel sent mark doc_ids w = Ok result w' /\
      length (trace w') = (length (trace w) + S (pages_needed (length rest) rows))%nat.
Proof.
  intros Hrows Hsorted. induction fuel as [|fuel IH];
    intros pre rest mark sent doc_ids w ids Hindex Hafter Hr Hs Hids Hfuel; [lia|].
  assert (solr_search (solr w) (request sent mark) = (respond (request sent mark), tt))
    as Hsearch by done.
  rewrite (loop_turn _ _ _ _ _ _ _ _ _ Hsearch).
  rewrite (respond_request _ _ _ Hr Hs). cbn [nextCursorMark docs]. rewrite Hafter.
  destruct (last (take rows rest)) as [d|] eqn:Hlast.
  - assert (d ∈ take rows rest) as Hd by (by apply last_Some_elem_of).
    assert (d ∈ after mark) as Hd'.
    { rewrite Hafter. rewrite <- (take_drop rows rest). apply elem_of_app. by left. }
    assert (0 < length rest)%nat as Hlen.
    { destruct rest; [|simpl; lia]. by rewrite take_nil in Hd; apply elem_of_nil in Hd. }
    rewrite bool_decide_false by (by apply mark_after_new).
    rewrite <- (take_drop rows rest), comprehension_app in Hids.
    destruct (comprehension (doc_id UUID) (take rows rest)) as [|ids1] eqn:H1; [done|].
    destruct (comprehension (doc_id UUID) (drop rows rest)) as [|ids2] eqn:H2; [done|].
    apply last_Some in Hlast as [page Hpage].
    edestruct (IH (pre ++ take rows rest) (drop rows rest)
                  (StableIndex.mark_after (key_of d)) (request sent mark)
                  (doc_ids ++ ids1)) as (result & w' & Hrun & Hcount);
      [| | | |exact H2| |].
    + rewrite <- app_assoc. by rewrite take_drop.
    + rewrite after_mark.
      assert (index = (pre ++ page) ++ d :: drop rows rest) as Hsplit.
      { rewrite Hindex. rewrite <- (take_drop rows rest) at 1. rewrite Hpage.
        by rewrite <- !app_assoc. }
      rewrite Hsplit. apply filter_after_sorted. by rewrite <- Hsplit.
    + by rewrite request_other.
    + by rewrite request_other.
    + rewrite length_drop. lia.
    + rewrite Hrun. exists result, w'. split; [done|].
      rewrite Hcount. cbn [trace]. rewrite length_app, length_drop. cbn [length].
      rewrite (pages_needed_step (length rest) rows) by done. lia.
  - apply last_None in Hlast.
    assert (rest = []) as ->.
    { destruct rest as [|d rest]; [done|]. destruct rows; [lia|done]. }
    rewrite bool_decide_true by done.
    eexists _, _. split; [done|]. cbn [trace length]. rewrite length_app.
    unfold pages_needed. cbn [length].
    rewrite (Nat.div_small (0 + rows - 1) rows) by lia. lia.
Qed.

(** X12: over a result set of n documents that does not change, with
    pages of rows documents, do_solr_query issues one search for every
    page the documents fill and one more, which comes back without a
    document: n divided by rows, rounded up, plus one searches, and
    nothing else. *)
Theorem stable_pagination_searches rows query fuel (w : World unit) ids :
  StronglySorted key_lt index ->
  comprehension (doc_id UUID) index = inr ids ->
  (1 <= rows)%nat ->
  CommonParams.get "rows" query = Some [PInt (Z.of_nat rows)] ->
  CommonParams.get "sort" query = None ->
  (length index < fuel)%nat ->
  exists result w' evs,
    do_solr_query fuel query w = Ok result w' /\
    trace w' = trace w ++ evs /\
    length evs = S (pages_needed (length index) rows) /\
    Forall (fun e => exists q r, e = EvSearch q r) evs.
Proof.
  intros Hsorted Hids Hrows Hr Hs Hfuel.
  set (sorted := CommonParams.sort (SOLR_UNIQUE_KEY +:+ " asc") query).
  destruct (stable_loop_searches rows Hrows Hsorted fuel [] index "*" sorted [] w ids)
    as ([ids' final] & w' & Hrun & Hcount); [done|apply after_start| | |done|done|].
  - unfold sorted, CommonParams.sort, CommonParams.add_value, CommonParams.get in *. simpl.
    by rewrite lookup_insert_ne.
  - unfold sorted, CommonParams.sort, CommonParams.add_value, CommonParams.get in *. simpl.
    by rewrite lookup_insert_eq, Hs.
  - destruct (loop_requests solr_search UUID sorted fuel sorted "*" [] w ids' final w')
      as (_ & _ & _ & evs & Ht & Hevs); [done|done|].
    exists (ids', final), w', evs. split; [done|]. split; [done|]. split.
    + rewrite Ht, length_app in Hcount. lia.
    + eapply Forall_impl; [exact Hevs|]. intros e (m & r & ->). eauto.
Qed.

End StablePagination.

(** C8, as the code has it: the field that is read is the field id
    (line 168), whatever the unique key of the collection is.  A
    document whose id is absent or cannot be read as a UUID is fatal for
    the run: whatever the index, when such a document is on a page that
    came with an advancing mark (a page the loop reads), do_solr_query
    raises.  And over a result set that does not change, paged in
    ascending order of the unique key with pages of at least one
    document, one such document among the matching ones is enough:
    do_solr_query raises, so it returns no list from which the document
    is missing. *)
Theorem malformed_record_is_fatal :
  (forall SolrState (solr_search : SolrState -> SearchOptions -> SolrResult * SolrState)
          SOLR_UNIQUE_KEY UUID fuel query (w : World SolrState) s rs m s1 d,
      advancing solr_search (CommonParams.sort (SOLR_UNIQUE_KEY +:+ " asc") query)
                s "*" rs m s1 ->
      d ∈ flat_map docs rs ->
      malformed UUID d ->
      solr w = s ->
      (length rs <= fuel)%nat ->
      exists e w', do_solr_query solr_search SOLR_UNIQUE_KEY UUID fuel query w = Raised e w') /\
  (forall SOLR_UNIQUE_KEY index UUID rows query fuel (w : World unit) d,
      StronglySorted (StableIndex.key_lt SOLR_UNIQUE_KEY) index ->
      d ∈ index ->
      malformed UUID d ->
      (1 <= rows)%nat ->
      CommonParams.get "rows" query = Some [PInt (Z.of_nat rows)] ->
      CommonParams.get "sort" query = None ->
      (length index < fuel)%nat ->
      exists e w',
        do_solr_query (StableIndex.solr_search SOLR_UNIQUE_KEY index) SOLR_UNIQUE_KEY UUID
                      fuel query w = Raised e w').
Proof.
  split.
  - intros. by eapply unreadable_page_is_fatal.
  - intros. by eapply stable_malformed_is_fatal.
Qed.

(* --------------------------------------------------------------------- *)
(* The whole tool over a result set that does not change                  *)
(* --------------------------------------------------------------------- *)

Section StableRun.

Variable SOLR_UNIQUE_KEY : string.
Variable cassandra_table : string.
Variable index : list (gmap string jvalue).
Variable UUID : string -> option uuid.
Variable execute_concurrent_with_args : string -> list uuid -> exn + list (bool * string).
Variable SearchOptions_of_json : string -> exn + SearchOptions.

Local Abbreviation respond := (StableIndex.respond SOLR_UNIQUE_KEY index).
Local Abbreviation solr_search := (StableIndex.solr_search SOLR_UNIQUE_KEY index).
Local Abbreviation statement := ("DELETE FROM " +:+ cassandra_table +:+ " WHERE tile_id=?").

(** The count query has no cursor mark: the index answers it with the
    number of documents that match. *)
Lemma respond_count query :
  CommonParams.get "cursorMark" query = None ->
  numFound (respond query) = Z.of_nat (length index).
Proof. intros Hmark. unfold StableIndex.respond. by rewrite Hmark. Qed.

(** X13: the tool from end to end.  Over a result set that is not empty
    and does not change, with a query text on the command line and a
    page size of at least 1, when the operator confirms the count (y or
    the empty line) and then the deletion (y), and the driver hands back
    a list of results: delete_by_query counts, pages through every
    matching document once, each search being the query that was built,
    sorted by the unique key, with one cursor mark, hands the Record IDs
    of all the documents to the row store in one call, warns of the
    failures in the list, deletes from the index by the query of the
    last of those searches, which has the query text and every other
    parameter of the query that was built, commits, and logs those same
    IDs as deleted.  It reads the two lines and no more. *)
Theorem stable_run_deletes_every_match
        fuel args text rows (w : World unit) a rest ids results :
  StronglySorted (StableIndex.key_lt SOLR_UNIQUE_KEY) index ->
  index <> [] ->
  comprehension (doc_id UUID) index = inr ids ->
  args_query args = Some text ->
  text <> "" ->
  args_rows args = Z.of_nat rows ->
  (1 <= rows)%nat ->
  stdin w = a :: "y" :: rest ->
  a = "y" \/ a = "" ->
  execute_concurrent_with_args statement ids = inr results ->
  (length index < fuel)%nat ->
  exists query w' pages m,
    let sorted := CommonParams.sort (SOLR_UNIQUE_KEY +:+ " asc") query in
    let final := request sorted m in
    build_query SOLR_UNIQUE_KEY SearchOptions_of_json args = inr query /\
    delete_by_query solr_search SOLR_UNIQUE_KEY cassandra_table UUID
                    execute_concurrent_with_args SearchOptions_of_json fuel args w =
      Ok tt w' /\
    stdin w' = rest /\
    CommonParams.get "q" final = Some [PStr text] /\
    (forall name, name <> "sort" -> name <> "cursorMark" ->
                  CommonParams.get name final = CommonParams.get name query) /\
    Forall (fun e => exists m', e = EvSearch (request sorted m') (respond (request sorted m')))
           pages /\
    last pages = Some (EvSearch final (respond final)) /\
    fetched pages = index /\
    trace w' =
      trace w
        ++ [EvSearch query (respond query);
            EvInput (AskContinue (Z.of_nat (length index)));
            EvLog INFO MsgCollecting]
        ++ pages
        ++ [EvInput (AskDelete (length index));
            EvLog INFO MsgCassandraDelete;
            EvPrepare statement;
            EvExecuteConcurrent statement ids]
        ++ warnings results
        ++ [EvLog INFO MsgSolrDelete;
            EvSolrDelete final false;
            EvSolrCommit;
            EvLog INFO (MsgDeleted ids)].
Proof.
  intros Hsorted Hne Hids Hquery Htext Hrows Hrows1 Hin Ha Hdrv Hfuel.
  pose proof (build_query_free_text SOLR_UNIQUE_KEY SearchOptions_of_json args text
                                    Hquery Htext) as Hq.
  destruct (free_text_built SOLR_UNIQUE_KEY text (default [] (args_filterquery args))
                            (args_rows args))
    as (Htextq & _ & _ & Hr & Hsort & Hmark).
  set (query := CommonParams.rows (args_rows args) _) in *.
  assert (length ids = length index) as Hlen by (by eapply comprehension_length).
  assert (numFound (respond query) <> 0) as Hn.
  { rewrite (respond_count _ Hmark). destruct index; [done|]. simpl. lia. }
  destruct fuel as [|fuel]; [lia|].
  (* the first confirmation *)
  assert (check_query solr_search SOLR_UNIQUE_KEY (S fuel) query w =
            Ok true {| solr := tt; stdin := "y" :: rest; rng := rng w;
                       trace := trace w
                                  ++ [EvSearch query (respond query);
                                      EvInput (AskContinue (Z.of_nat (length index)))] |})
    as Hcheck.
  { rewrite (check_query_step solr_search SOLR_UNIQUE_KEY fuel query w (respond query) tt
                              eq_refl Hn).
    rewrite prompt_then with (junk := []) (x := a) (rest := "y" :: rest);
      [|done|done| |simpl; lia].
    - cbn [solr stdin rng trace length repeat].
      rewrite (respond_count _ Hmark). rewrite <- app_assoc.
      destruct Ha as [->| ->]; done.
    - destruct Ha as [->| ->]; repeat constructor. }
  (* pagination *)
  set (sorted := CommonParams.sort (SOLR_UNIQUE_KEY +:+ " asc") query).
  destruct (stable_loop SOLR_UNIQUE_KEY index UUID rows Hrows1 Hsorted (S fuel) [] index "*"
              sorted []
              {| solr := tt; stdin := "y" :: rest; rng := rng w;
                 trace := (trace w
                             ++ [EvSearch query (respond query);
                                 EvInput (AskContinue (Z.of_nat (length index)))])
                            ++ [EvLog INFO MsgCollecting] |} ids)
    as (w3 & searches & final & Hpages & Hin3 & Htrace3 & Hfetched);
    [done|apply after_start| | |done|done|].
  { unfold sorted, CommonParams.sort. rewrite get_add_value, bool_decide_false by done.
    by rewrite Hr, Hrows. }
  { unfold sorted, CommonParams.sort. rewrite get_add_value, bool_decide_true by done.
    by rewrite Hsort. }
  (* the searches of the pagination, and the query it hands back *)
  destruct (loop_requests_last solr_search UUID sorted (S fuel) _ _ _ _ _ _ _
                               (fun x => eq_refl) Hpages)
    as (evs & m & r & Htrace3' & Hfinal & _ & Hevs & _).
  rewrite Htrace3 in Htrace3'. apply app_inv_head in Htrace3'. subst searches.
  assert (Forall (fun e => exists m', e = EvSearch (request sorted m')
                                                   (respond (request sorted m')))
                 (evs ++ [EvSearch final r])) as Hevs'.
  { eapply Forall_impl; [exact Hevs|].
    intros e (m' & r' & s' & -> & ->). by exists m'. }
  assert (r = respond final) as ->.
  { apply Forall_app in Hevs' as [_ Hl]. apply Forall_singleton in Hl as (m' & Hl).
    by injection Hl as -> ->. }
  subst final.
  cbn [app stdin trace] in Hpages, Hin3, Htrace3.
  exists query,
    {| solr := solr w3; stdin := rest; rng := rng w3;
       trace := ((trace w3 ++ [EvInput (AskDelete (length ids))])
                   ++ [EvLog INFO MsgCassandraDelete;
                       EvPrepare statement;
                       EvExecuteConcurrent statement ids]
                   ++ warnings results
                   ++ [EvLog INFO MsgSolrDelete;
                       EvSolrDelete (request sorted m) false;
                       EvSolrCommit])
                  ++ [EvLog INFO (MsgDeleted ids)] |},
    (evs ++ [EvSearch (request sorted m) (respond (request sorted m))]), m.
  cbv zeta. fold sorted.
  split; [done|]. split; [|split; [done|]].
  - rewrite (delete_by_query_built _ _ _ _ _ _ _ _ _ _ Hq).
    rewrite (bind_Ok _ _ _ _ _ Hcheck). cbn iota.
    unfold bind at 1, logging_info at 1, emit at 1.
    unfold do_solr_query. fold sorted.
    rewrite (bind_Ok _ _ _ _ _ Hpages). cbn iota.
    rewrite (bind_Ok _ _ _ _ _
               (confirm_delete_decided (S fuel) (length ids) [] "y" rest w3
                                       Hin3 (Forall_nil_2 _) (list_elem_of_here _ _)
                                       (Nat.le_0_l _))).
    rewrite bool_decide_true by done.
    rewrite (bind_Ok _ _ _ _ _
               (do_delete_reported cassandra_table execute_concurrent_with_args
                                   ids (request sorted m) results _ Hdrv)).
    reflexivity.
  - assert (forall name, name <> "sort" -> name <> "cursorMark" ->
                         CommonParams.get name (request sorted m) =
                           CommonParams.get name query) as Hother.
    { intros name Hs Hm. rewrite request_other by done.
      unfold sorted, CommonParams.sort. rewrite get_add_value.
      by rewrite bool_decide_false. }
    split; [by rewrite Hother|]. split; [done|]. split; [done|].
    split; [apply last_snoc|]. split; [done|].
    cbn [trace]. rewrite Htrace3, Hlen. rewrite <- !app_assoc. reflexivity.
Qed.

(** X14: one record that cannot be read blocks the whole deletion.
    Over a result set that does not change and holds a document whose
    id is absent or is no UUID, once the operator has confirmed the
    count, delete_by_query raises during pagination: the second
    confirmation is never asked, no line beyond the first answer is
    read, and after the count and the log line there are only
    searches, so nothing is deleted from either store. *)
Theorem stable_run_stops_at_malformed_record
        fuel args text rows (w : World unit) a rest d :
  StronglySorted (StableIndex.key_lt SOLR_UNIQUE_KEY) index ->
  d ∈ index ->
  malformed UUID d ->
  args_query args = Some text ->
  text <> "" ->
  args_rows args = Z.of_nat rows ->
  (1 <= rows)%nat ->
  stdin w = a :: rest ->
  a = "y" \/ a = "" ->
  (length index < fuel)%nat ->
  exists query e w' searches,
    build_query SOLR_UNIQUE_KEY SearchOptions_of_json args = inr query /\
    delete_by_query solr_search SOLR_UNIQUE_KEY cassandra_table UUID
                    execute_concurrent_with_args SearchOptions_of_json fuel args w =
      Raised e w' /\
    stdin w' = rest /\
    trace w' =
      trace w
        ++ [EvSearch query (respond query);
            EvInput (AskContinue (Z.of_nat (length index)));
            EvLog INFO MsgCollecting]
        ++ searches /\
    Forall (fun ev => exists q r, ev = EvSearch q r) searches.
Proof.
  intros Hsorted Hd Hbad Hquery Htext Hrows Hrows1 Hin Ha Hfuel.
  pose proof (build_query_free_text SOLR_UNIQUE_KEY SearchOptions_of_json args text
                                    Hquery Htext) as Hq.
  destruct (free_text_built SOLR_UNIQUE_KEY text (default [] (args_filterquery args))
                            (args_rows args))
    as (_ & _ & _ & Hr & Hsort & Hmark).
  set (query := CommonParams.rows (args_rows args) _) in *.
  assert (numFound (respond query) <> 0) as Hn.
  { rewrite (respond_count _ Hmark). destruct index; [|simpl; lia].
    by apply elem_of_nil in Hd. }
  destruct fuel as [|fuel]; [lia|].
  set (w2 := {| solr := tt; stdin := rest; rng := rng w;
                trace := (trace w
                            ++ [EvSearch query (respond query);
                                EvInput (AskContinue (Z.of_nat (length index)))])
                           ++ [EvLog INFO MsgCollecting] |}).
  assert (check_query solr_search SOLR_UNIQUE_KEY (S fuel) query w =
            Ok true {| solr := tt; stdin := rest; rng := rng w;
                       trace := trace w
                                  ++ [EvSearch query (respond query);
                                      EvInput (AskContinue (Z.of_nat (length index)))] |})
    as Hcheck.
  { rewrite (check_query_step solr_search SOLR_UNIQUE_KEY fuel query w (respond query) tt
                              eq_refl Hn).
    rewrite prompt_then with (junk := []) (x := a) (rest := rest);
      [|done|done| |simpl; lia].
    - cbn [solr stdin rng trace length repeat].
      rewrite (respond_count _ Hmark). rewrite <- app_assoc.
      destruct Ha as [->| ->]; done.
    - destruct Ha as [->| ->]; repeat constructor. }
  rewrite Hrows in Hr.
  destruct (stable_malformed_is_fatal SOLR_UNIQUE_KEY index UUID rows query (S fuel) w2 d
                                      Hsorted Hd Hbad Hrows1 Hr Hsort Hfuel)
    as (e & w' & Hpages).
  pose proof (loop_only_searches
                solr_search UUID (S fuel)
                (CommonParams.sort (SOLR_UNIQUE_KEY +:+ " asc") query) "*" [] w2) as Honly.
  unfold do_solr_query in Hpages. rewrite Hpages in Honly.
  destruct Honly as (Hin' & searches & Htrace & Hsearches).
  exists query, e, w', searches.
  split; [done|]. split; [|split; [done|split; [|done]]].
  - rewrite (delete_by_query_built _ _ _ _ _ _ _ _ _ _ Hq).
    rewrite (bind_Ok _ _ _ _ _ Hcheck). cbn iota.
    unfold bind at 1, logging_info at 1, emit at 1.
    unfold do_solr_query. fold w2. by rewrite (bind_Raised _ _ _ _ _ Hpages).
  - rewrite Htrace. unfold w2. cbn [trace]. by rewrite <- !app_assoc.
Qed.

End StableRun.

(* ===================================================================== *)
(* Runs                                                                   *)
(* ===================================================================== *)

Module Runs.

Import Example.

Lemma build_query_args : build_query "id" no_json args = inr query.
Proof. reflexivity. Qed.

(** The driver of the example reports a failure for tile B only. *)
Lemma fails_on_B_results :
  fails_on_B statement [10; 11; 12] = inr [(true, ""); (false, "timeout"); (true, "")].
Proof. reflexivity. Qed.

(** C6 on the three tiles, with a failure on B: the warning about B comes
    after the submission and before the bulk delete. *)
Lemma do_delete_row_store_before_index_witness :
  do_delete "sea_surface_temp" fails_on_B [10; 11; 12] sorted (start tt []) =
    Ok [10; 11; 12]
       {| solr := tt; stdin := []; rng := [];
          trace := [EvLog INFO MsgCassandraDelete;
                    EvPrepare statement;
                    EvExecuteConcurrent statement [10; 11; 12];
                    EvLog WARNING (MsgCouldNotDelete "timeout");
                    EvLog INFO MsgSolrDelete;
                    EvSolrDelete sorted false;
                    EvSolrCommit] |}.
Proof.
  exact (do_delete_row_store_before_index
           "sea_surface_temp" fails_on_B [10; 11; 12] sorted (start tt [])).
Defined.

(** A list of results with a failure on B, on the three tiles. *)
Lemma row_store_failures_are_warnings_witness :
  (exists w1,
      delete_from_cassandra "sea_surface_temp" fails_on_B [10; 11; 12] (start tt []) =
        Ok tt w1 /\
      trace w1 = [EvPrepare statement;
                  EvExecuteConcurrent statement [10; 11; 12];
                  EvLog WARNING (MsgCouldNotDelete "timeout")]) /\
  (exists w2 before,
      do_delete "sea_surface_temp" fails_on_B [10; 11; 12] sorted (start tt []) =
        Ok [10; 11; 12] w2 /\
      trace w2 = before ++ [EvSolrDelete sorted false; EvSolrCommit]).
Proof.
  destruct (row_store_failures_are_warnings
              (SolrState := unit) "sea_surface_temp" fails_on_B [10; 11; 12] sorted
              [(true, ""); (false, "timeout"); (true, "")] (start tt [])
              fails_on_B_results)
    as [(w1 & Hrun1 & Htrace1 & _) (w2 & before & Hrun2 & Htrace2 & _)].
  split.
  - exists w1. split; [exact Hrun1|exact Htrace1].
  - exists w2, before. split; [exact Hrun2|exact Htrace2].
Defined.

(** C5 on a count of zero. *)
Lemma no_results_no_prompt_no_delete_witness :
  check_query Scripted.solr_search "id" 1 query (start [count0] ["y"; "y"]) =
    Ok false {| solr := []; stdin := ["y"; "y"]; rng := [];
                trace := [EvSearch query count0; EvLog INFO MsgNoResults] |} /\
  delete_by_query Scripted.solr_search "id" "sea_surface_temp" Hex.UUID fails_on_B no_json
                  1 args (start [count0] ["y"; "y"]) =
    Ok tt {| solr := []; stdin := ["y"; "y"]; rng := [];
             trace := [EvSearch query count0; EvLog INFO MsgNoResults;
                       EvLog INFO MsgExiting] |}.
Proof.
  destruct (no_results_no_prompt_no_delete
              Scripted.solr_search "id" "sea_surface_temp" Hex.UUID fails_on_B no_json
              0 args query (start [count0] ["y"; "y"]) count0 []
              build_query_args eq_refl eq_refl)
    as (Hcheck & Hrun & _).
  split; [exact Hcheck|exact Hrun].
Defined.

(** C4 on the lines q, y: the line q is answered by the prompt again, the
    line y by true. *)
Lemma check_query_answers_witness :
  check_query Scripted.solr_search "id" 2 query (start [count3] ["q"; "y"; "n"]) =
    Ok true {| solr := []; stdin := ["n"]; rng := [];
               trace := [EvSearch query count3;
                         EvInput (AskContinue 3);
                         EvInput (AskContinue 3)] |}.
Proof.
  refine (proj1 (check_query_answers
                   Scripted.solr_search "id" 1 query (start [count3] ["q"; "y"; "n"])
                   count3 [] ["q"] "y" ["n"] eq_refl _ eq_refl _ _ _)
                (or_introl eq_refl)).
  - discriminate.
  - constructor; [compute_done|constructor].
  - compute_done.
  - simpl. lia.
Defined.

(** C1 on the three tiles, two to a page. *)
Lemma stable_pagination_complete_witness :
  exists w' evs final,
    do_solr_query (StableIndex.solr_search "id" index) "id" Hex.UUID 4 query (start tt []) =
      Ok ([10; 11; 12], final) w' /\
    length [10; 11; 12] = length index /\
    NoDup [10; 11; 12] /\
    stdin w' = [] /\
    trace w' = [] ++ evs /\
    fetched evs = index.
Proof.
  apply (stable_pagination_complete "id" index Hex.UUID 2 query 4 (start tt []) [10; 11; 12]).
  - repeat constructor.
  - reflexivity.
  - intros d1 d2 H1 H2 Heq. unfold index in H1, H2.
    rewrite !elem_of_cons, elem_of_nil in H1, H2.
    destruct H1 as [->|[->|[->|[]]]], H2 as [->|[->|[->|[]]]];
      first [reflexivity | by vm_compute in Heq].
  - lia.
  - reflexivity.
  - reflexivity.
  - simpl. lia.
Defined.

(** C2 on a response that repeats its mark after one page. *)
Lemma same_mark_stops_witness :
  do_solr_query_loop Scripted.solr_search Hex.UUID 1 sorted "m1" [10]
                     (start [page2_same_mark] []) =
    Ok ([10], request sorted "m1")
       {| solr := []; stdin := []; rng := [];
          trace := [EvSearch (request sorted "m1") page2_same_mark] |}.
Proof.
  exact (proj1 (same_mark_stops Scripted.solr_search "id" Hex.UUID)
               0%nat sorted "m1" [10] (start [page2_same_mark] [])
               page2_same_mark [] eq_refl eq_refl).
Defined.

(** Against C2 as stated: over an empty result set the first response
    already comes with the mark "*" that was sent, and do_solr_query
    stops after this one search, no page having given anything. *)
Lemma stops_on_first_response :
  let r := StableIndex.respond "id" [] (request sorted "*") in
  nextCursorMark r = Some "*" /\
  CommonParams.get "cursorMark" (request sorted "*") = Some [PStr "*"] /\
  do_solr_query (StableIndex.solr_search "id" []) "id" Hex.UUID 1 query (start tt []) =
    Ok ([], request sorted "*")
       {| solr := tt; stdin := []; rng := [];
          trace := [EvSearch (request sorted "*") r] |}.
Proof. vm_compute. done. Qed.

(** Against C3 as stated: pagination returns no ID and the second
    confirmation is asked all the same, for 0 records; the empty line
    and s do not confirm, they bring the prompt back; y then runs the
    deleter on the empty list. *)
Lemma second_confirmation_on_empty_list :
  delete_by_query Scripted.solr_search "id" "sea_surface_temp" Hex.UUID fails_on_B no_json
                  3 args (start [count1; nothing_left] ["y"; ""; "s"; "y"]) =
    Ok tt {| solr := []; stdin := []; rng := [];
             trace := [EvSearch query count1;
                       EvInput (AskContinue 1);
                       EvLog INFO MsgCollecting;
                       EvSearch (request sorted "*") nothing_left;
                       EvInput (AskDelete 0);
                       EvInput (AskDelete 0);
                       EvInput (AskDelete 0);
                       EvLog INFO MsgCassandraDelete;
                       EvPrepare statement;
                       EvExecuteConcurrent statement [];
                       EvLog INFO MsgSolrDelete;
                       EvSolrDelete (request sorted "*") false;
                       EvSolrCommit;
                       EvLog INFO (MsgDeleted [])] |}.
Proof. vm_compute. reflexivity. Qed.

(** C3 on one paginated tile: the empty line brings the prompt back, n
    ends the run. *)
Lemma second_confirmation_witness :
  delete_by_query Scripted.solr_search "id" "sea_surface_temp" Hex.UUID fails_on_B no_json
                  3 args (start [count3; page1; page2_same_mark] ["y"; ""; "n"]) =
    Ok tt {| solr := []; stdin := []; rng := [];
             trace := [EvSearch query count3;
                       EvInput (AskContinue 3);
                       EvLog INFO MsgCollecting;
                       EvSearch (request sorted "*") page1;
                       EvSearch (request sorted "m1") page2_same_mark;
                       EvInput (AskDelete 1);
                       EvInput (AskDelete 1);
                       EvLog INFO MsgExiting] |}.
Proof.
  refine (proj2 (second_confirmation
                   Scripted.solr_search "id" "sea_surface_temp" Hex.UUID fails_on_B no_json
                   3 args query (start [count3; page1; page2_same_mark] ["y"; ""; "n"])
                   {| solr := [page1; page2_same_mark]; stdin := [""; "n"]; rng := [];
                      trace := [EvSearch query count3; EvInput (AskContinue 3)] |}
                   {| solr := []; stdin := [""; "n"]; rng := [];
                      trace := [EvSearch query count3;
                                EvInput (AskContinue 3);
                                EvLog INFO MsgCollecting;
                                EvSearch (request sorted "*") page1;
                                EvSearch (request sorted "m1") page2_same_mark] |}
                   [10] (request sorted "m1") [""] "n" []
                   build_query_args _ _ eq_refl _ _ _)
                eq_refl).
  - vm_compute. reflexivity.
  - vm_compute. reflexivity.
  - constructor; [compute_done|constructor].
  - compute_done.
  - simpl. lia.
Defined.

(** C8 on a result set with a document whose id is not a UUID. *)
Lemma malformed_record_is_fatal_witness :
  exists e w',
    do_solr_query (StableIndex.solr_search "id" [tileA; broken]) "id" Hex.UUID
                  3 query (start tt []) = Raised e w'.
Proof.
  apply (proj2 malformed_record_is_fatal
               "id" [tileA; broken] Hex.UUID 2%nat query 3%nat (start tt []) broken).
  - repeat constructor.
  - rewrite !elem_of_cons. auto.
  - reflexivity.
  - lia.
  - reflexivity.
  - reflexivity.
  - simpl. lia.
Defined.

(** C9 on a last response that carries tile B: B is not in the list. *)
Lemma terminal_response_not_appended_witness :
  do_solr_query Scripted.solr_search "id" Hex.UUID 2 query
                (start [page1; page2_same_mark] []) =
    Ok ([10], request sorted "m1")
       {| solr := []; stdin := []; rng := [];
          trace := [EvSearch (request sorted "*") page1;
                    EvSearch (request sorted "m1") page2_same_mark] |}.
Proof.
  apply (terminal_response_not_appended
           Scripted.solr_search "id" Hex.UUID 2 query (start [page1; page2_same_mark] [])
           [page1; page2_same_mark] [page1] "m1" [page2_same_mark] page2_same_mark [] [10]).
  - eapply advancing_cons; [reflexivity|reflexivity|discriminate|apply advancing_nil].
  - reflexivity.
  - reflexivity.
  - reflexivity.
  - reflexivity.
  - simpl. lia.
Defined.

(** C10 on a run that samples once and then declines. *)
Lemma sampling_needs_documents_witness :
  docs count3 <> [] /\
  exists picked key shown s',
    picked ∈ docs count3 /\
    picked !! "id" = Some key /\
    Scripted.solr_search [shownA; count3]
      (CommonParams.q ("id" +:+ ":" +:+ py_str key) new_SearchOptions) = (shown, s') /\
    docs shown <> [].
Proof.
  refine (proj2 (proj2 (sampling_needs_documents
                          Scripted.solr_search "id" 1 query
                          (start [count3; shownA; count3] ["s"; "n"])
                          count3 [shownA; count3] ["n"] eq_refl _ eq_refl))
                false _ _).
  - discriminate.
  - vm_compute. reflexivity.
Defined.

(** The driver raises on tile B: do_delete raises, and the index is not
    touched. *)
Lemma driver_raises_on_tile_B :
  do_delete "sea_surface_temp" raises_on_B [10; 11; 12] sorted (start tt []) =
    Raised (DriverError "timeout")
           {| solr := tt; stdin := []; rng := [];
              trace := [EvLog INFO MsgCassandraDelete;
                        EvPrepare statement;
                        EvExecuteConcurrent statement [10; 11; 12]] |}.
Proof.
  exact (do_delete_driver_raises
           "sea_surface_temp" raises_on_B [10; 11; 12] sorted (DriverError "timeout")
           (start tt []) eq_refl).
Defined.

(** A response without a mark after a page with tile A: the list is
    empty. *)
Lemma missing_mark_returns_nothing_witness :
  do_solr_query Scripted.solr_search "id" Hex.UUID 2 query (start [page1; no_mark] []) =
    Ok ([], request sorted "m1")
       {| solr := []; stdin := []; rng := [];
          trace := [EvSearch (request sorted "*") page1;
                    EvSearch (request sorted "m1") no_mark] |}.
Proof.
  apply (missing_mark_returns_nothing
           Scripted.solr_search "id" Hex.UUID 2 query (start [page1; no_mark] [])
           [page1; no_mark] [page1] "m1" [no_mark] no_mark [] [10]).
  - eapply advancing_cons; [reflexivity|reflexivity|discriminate|apply advancing_nil].
  - reflexivity.
  - reflexivity.
  - reflexivity.
  - reflexivity.
  - simpl. lia.
Defined.

(** A sample, then the count query again. *)
Lemma sampling_restarts_check_witness :
  check_query Scripted.solr_search "id" 2 query (start [count3; shownA; count0] ["s"]) =
    check_query Scripted.solr_search "id" 1 query
      {| solr := [count0]; stdin := []; rng := [];
         trace := [EvSearch query count3;
                   EvInput (AskContinue 3);
                   EvSearch (CommonParams.q "id:00000000-0000-0000-0000-00000000000a"
                                            new_SearchOptions) shownA;
                   EvLog INFO (MsgDocument tileA)] |}.
Proof.
  apply (sampling_restarts_check
           Scripted.solr_search "id" 1 query (start [count3; shownA; count0] ["s"])
           count3 [shownA; count0] [] tileA
           {| solr := [shownA; count0]; stdin := []; rng := [];
              trace := [EvSearch query count3; EvInput (AskContinue 3)] |}
           (JStr "00000000-0000-0000-0000-00000000000a") shownA [count0] tileA []).
  - reflexivity.
  - discriminate.
  - reflexivity.
  - reflexivity.
  - reflexivity.
  - reflexivity.
  - reflexivity.
Defined.

(** The run of the three tiles from end to end: y at the count, y at the
    second confirmation, tile B failing in the row store.  The warning
    names the failure of B, the index is deleted from by the query, and
    the three IDs are logged as deleted. *)
Lemma three_tiles_end_to_end :
  let respond := StableIndex.respond "id" index in
  let markB := ">00000000-0000-0000-0000-00000000000b" in
  let markC := ">00000000-0000-0000-0000-00000000000c" in
  delete_by_query (StableIndex.solr_search "id" index) "id" "sea_surface_temp" Hex.UUID
                  fails_on_B no_json 4 args (start tt ["y"; "y"]) =
    Ok tt {| solr := tt; stdin := []; rng := [];
             trace := [EvSearch query (respond query);
                       EvInput (AskContinue 3);
                       EvLog INFO MsgCollecting;
                       EvSearch (request sorted "*") (respond (request sorted "*"));
                       EvSearch (request sorted markB) (respond (request sorted markB));
                       EvSearch (request sorted markC) (respond (request sorted markC));
                       EvInput (AskDelete 3);
                       EvLog INFO MsgCassandraDelete;
                       EvPrepare statement;
                       EvExecuteConcurrent statement [10; 11; 12];
                       EvLog WARNING (MsgCouldNotDelete "timeout");
                       EvLog INFO MsgSolrDelete;
                       EvSolrDelete (request sorted markC) false;
                       EvSolrCommit;
                       EvLog INFO (MsgDeleted [10; 11; 12])] |}.
Proof. vm_compute. reflexivity. Qed.

(** s, a look at the sampled tile, then n: nothing is deleted. *)
Lemma sample_then_decline :
  exists w',
    delete_by_query Scripted.solr_search "id" "sea_surface_temp" Hex.UUID
                    fails_on_B no_json 4 args
                    (start [count3; shownA; count3] ["s"; "n"]) = Ok tt w' /\
    trace w' = [EvSearch query count3;
                EvInput (AskContinue 3);
                EvSearch (CommonParams.q "id:00000000-0000-0000-0000-00000000000a"
                                         new_SearchOptions) shownA;
                EvLog INFO (MsgDocument tileA);
                EvSearch query count3;
                EvInput (AskContinue 3);
                EvLog INFO MsgExiting] /\
    forallb (fun e => negb (is_deletion e)) (trace w') = true.
Proof. eexists. split; [vm_compute; reflexivity|]. split; reflexivity. Qed.

(* More runs: the construction of the query, the gate at the end of the
   input, what never deletes, and the paginator. *)

Import Cases.

(** X3 on a command line with neither form of the query. *)
Lemma bad_configuration_contacts_no_store_witness :
  exists e,
    delete_by_query Scripted.solr_search "id" "sea_surface_temp" Hex.UUID fails_on_B no_json
                    5 args_none (start [count3] ["y"; "y"]) =
      Raised e (start [count3] ["y"; "y"]) /\
    (truthy (args_jsonparams args_none) = false ->
     e = RuntimeError "either query or jsonparams is required").
Proof.
  exact (bad_configuration_contacts_no_store
           Scripted.solr_search "id" "sea_surface_temp" Hex.UUID fails_on_B no_json
           5 args_none (start [count3] ["y"; "y"]) eq_refl (or_introl eq_refl)).
Defined.

(** X4 on a command line with two filters. *)
Lemma free_text_query_parameters_witness :
  exists query,
    build_query "id" no_json args_filtered = inr query /\
    PStr "*:*" ∈ default [] (CommonParams.get "q" query) /\
    PStr "id" ∈ default [] (CommonParams.get "fl" query) /\
    PStr "id" ∈ default [] (CommonParams.get "fl" query) /\
    (forall f, PStr f ∈ default [] (CommonParams.get "fq" query) <->
               f ∈ default [] (args_filterquery args_filtered)) /\
    CommonParams.get "rows" query = Some [PInt (args_rows args_filtered)] /\
    CommonParams.get "sort" query = None /\
    CommonParams.get "cursorMark" query = None.
Proof.
  apply (free_text_query_parameters "id" no_json args_filtered "*:*").
  - reflexivity.
  - discriminate.
Defined.

(** X5 on a JSON body, with a filter on the command line that is not
    used. *)
Lemma json_query_keeps_the_body_witness :
  exists query,
    build_query "id" read_json args_json = inr query /\
    (forall name, name <> "fl" -> name <> "rows" ->
                  CommonParams.get name query =
                    CommonParams.get name (CommonParams.q "*:*" new_SearchOptions)) /\
    PStr "id" ∈ default [] (CommonParams.get "fl" query) /\
    PStr "id" ∈ default [] (CommonParams.get "fl" query) /\
    PInt 2 ∈ default [] (CommonParams.get "rows" query).
Proof.
  apply (json_query_keeps_the_body "id" read_json args_json "{q: *:*}").
  - reflexivity.
  - reflexivity.
  - discriminate.
  - reflexivity.
Defined.

(** X6 on two lines that are no answer. *)
Lemma gate_raises_at_end_of_input_witness :
  let w' := {| solr := []; stdin := []; rng := [];
               trace := [EvSearch query count3;
                         EvInput (AskContinue 3);
                         EvInput (AskContinue 3);
                         EvInput (AskContinue 3)] |} in
  check_query Scripted.solr_search "id" 3 query (start [count3] ["q"; "yes"]) =
    Raised EOFError w' /\
  delete_by_query Scripted.solr_search "id" "sea_surface_temp" Hex.UUID fails_on_B no_json
                  3 args (start [count3] ["q"; "yes"]) = Raised EOFError w'.
Proof.
  apply (gate_raises_at_end_of_input
           Scripted.solr_search "id" "sea_surface_temp" Hex.UUID fails_on_B no_json
           2 args query (start [count3] ["q"; "yes"]) count3 []).
  - reflexivity.
  - reflexivity.
  - discriminate.
  - constructor; [compute_done|]. constructor; [compute_done|constructor].
  - simpl. lia.
Defined.

(** X7 on a terminal without the line y: the count is accepted by the
    empty line, the pages are fetched, and nothing is deleted. *)
Lemma no_yes_no_deletion_witness :
  match delete_by_query Scripted.solr_search "id" "sea_surface_temp" Hex.UUID
                        fails_on_B no_json 4 args
                        (start [count3; page1; page2_same_mark] [""; "yes"; "n"]) with
  | Ok _ w' | Raised _ w' =>
      exists evs,
        trace w' = [] ++ evs /\ Forall (fun e => is_deletion e = false) evs
  | OutOfFuel => True
  end.
Proof.
  apply (no_yes_no_deletion
           Scripted.solr_search "id" "sea_surface_temp" Hex.UUID fails_on_B no_json
           4 args (start [count3; page1; page2_same_mark] [""; "yes"; "n"])).
  compute_done.
Defined.

(** X8 on a run that samples and is then declined. *)
Lemma gate_declines_on_n_or_no_results_witness :
  exists w',
    check_query Scripted.solr_search "id" 3 query
                (start [count3; shownA; count3] ["s"; "n"; "y"]) = Ok false w' /\
    ((exists before r,
         trace w' = before ++ [EvSearch query r; EvLog INFO MsgNoResults] /\
         numFound r = 0) \/
     (exists pre, ["s"; "n"; "y"] = pre ++ "n" :: stdin w')).
Proof.
  eexists. split; [vm_compute; reflexivity|].
  apply (gate_declines_on_n_or_no_results
           Scripted.solr_search "id" 3 query
           (start [count3; shownA; count3] ["s"; "n"; "y"])).
  vm_compute. reflexivity.
Defined.

(** X9 on two lines and three units of fuel. *)
Lemma confirmations_end_on_finite_input_witness :
  ends (check_query Scripted.solr_search "id" 3 query (start [count3] ["q"; "s"])) /\
  ends (confirm_delete 3 7 (start [count3] ["q"; "s"])).
Proof.
  apply (confirmations_end_on_finite_input Scripted.solr_search "id" 3 query 7%nat
                                           (start [count3] ["q"; "s"])).
  simpl. lia.
Defined.

(** C7 on the three tiles, in a row store where the deletion of B
    fails: as the code calls the driver the failure is raised after the
    submission; with raise_on_first_error=False it would be a warning. *)
Lemma row_store_failure_is_raised_witness :
  (exists failed,
      failed ∈ [10; 11; 12] /\ fst (store_fails_on_B failed) = false /\
      do_delete "sea_surface_temp"
                (Cassandra.execute_concurrent_with_args store_fails_on_B true)
                [10; 11; 12] sorted (start tt []) =
        Raised (DriverError (snd (store_fails_on_B failed)))
               {| solr := tt; stdin := []; rng := [];
                  trace := [] ++ [EvLog INFO MsgCassandraDelete;
                                  EvPrepare statement;
                                  EvExecuteConcurrent statement [10; 11; 12]] |}) /\
  do_delete "sea_surface_temp"
            (Cassandra.execute_concurrent_with_args store_fails_on_B false)
            [10; 11; 12] sorted (start tt []) =
    Ok [10; 11; 12]
       {| solr := tt; stdin := []; rng := [];
          trace := [] ++ [EvLog INFO MsgCassandraDelete;
                          EvPrepare statement;
                          EvExecuteConcurrent statement [10; 11; 12]]
                      ++ warnings (map store_fails_on_B [10; 11; 12])
                      ++ [EvLog INFO MsgSolrDelete;
                          EvSolrDelete sorted false;
                          EvSolrCommit] |} /\
  EvLog WARNING (MsgCouldNotDelete (snd (store_fails_on_B 11)))
    ∈ warnings (map store_fails_on_B [10; 11; 12]).
Proof.
  apply (row_store_failure_is_raised
           (SolrState := unit) "sea_surface_temp" store_fails_on_B
           [10; 11; 12] sorted (start tt []) 11).
  - rewrite !elem_of_cons. auto.
  - reflexivity.
Defined.

(** The run of the code on that roster: the exception of the driver, and
    neither a warning nor a call on the index. *)
Lemma failure_on_tile_B_is_raised :
  do_delete "sea_surface_temp"
            (Cassandra.execute_concurrent_with_args store_fails_on_B true)
            [10; 11; 12] sorted (start tt []) =
    Raised (DriverError "timeout")
           {| solr := tt; stdin := []; rng := [];
              trace := [EvLog INFO MsgCassandraDelete;
                        EvPrepare statement;
                        EvExecuteConcurrent statement [10; 11; 12]] |}.
Proof. vm_compute. reflexivity. Qed.

(** Against C8 as stated: in a collection whose unique key is tile_id, a
    document without a tile_id and a document whose tile_id is no UUID
    are both on the page that is read, and do_solr_query returns: the
    field it reads is id, and the roster holds the UUIDs of the id
    fields. *)
Lemma unique_key_is_not_checked :
  let sorted := CommonParams.sort "tile_id asc" query_by_tile_id in
  let tiles := [tile_unkeyed; tile_keyed] in
  let page := StableIndex.respond "tile_id" tiles (request sorted "*") in
  let last_response := StableIndex.respond "tile_id" tiles (request sorted ">tile-17") in
  tile_unkeyed !! "tile_id" = None /\
  tile_keyed !! "tile_id" = Some (JStr "tile-17") /\
  Hex.UUID "tile-17" = None /\
  docs page = tiles /\
  do_solr_query (StableIndex.solr_search "tile_id" tiles) "tile_id" Hex.UUID 3
                query_by_tile_id (start tt []) =
    Ok ([11; 10], request sorted ">tile-17")
       {| solr := tt; stdin := []; rng := [];
          trace := [EvSearch (request sorted "*") page;
                    EvSearch (request sorted ">tile-17") last_response] |}.
Proof. vm_compute. done. Qed.

(** X10 on a page and a last response. *)
Lemma paginator_changes_sort_and_mark_only_witness :
  exists ids w',
    do_solr_query Scripted.solr_search "id" Hex.UUID 2 query
                  (start [page1; page2_same_mark] ["y"]) =
      Ok (ids, request sorted "m1") w' /\
    trace w' = [EvSearch (request sorted "*") page1;
                EvSearch (request sorted "m1") page2_same_mark] /\
    CommonParams.get "cursorMark" (request sorted "m1") = Some [PStr "m1"] /\
    PStr "id asc" ∈ default [] (CommonParams.get "sort" (request sorted "m1")) /\
    CommonParams.get "rows" (request sorted "m1") = CommonParams.get "rows" query /\
    stdin w' = ["y"].
Proof.
  eexists _, _. split; [vm_compute; reflexivity|].
  destruct (paginator_changes_sort_and_mark_only
              Scripted.solr_search "id" Hex.UUID 2 query
              (start [page1; page2_same_mark] ["y"]) _ _ _ eq_refl)
    as ((evs & m & r & Ht & Hq & Hmark & _) & Hsort & Hother & Hin).
  split; [reflexivity|]. split; [apply request_cursorMark|].
  split; [apply Hsort; by right|]. split; [|exact Hin].
  apply Hother; discriminate.
Defined.

Lemma mark_length n : String.length (Endless.mark n) = S n.
Proof. induction n as [|n IH]; simpl; [done|]. by rewrite IH. Qed.

(** X11 on the index that never runs out of marks. *)
Lemma pagination_goes_on_while_marks_advance_witness :
  do_solr_query Endless.solr_search "id" Hex.UUID 1000 query (start 0%nat []) = OutOfFuel.
Proof.
  apply (pagination_goes_on_while_marks_advance
           Endless.solr_search "id" Hex.UUID
           (fun n m => (String.length m <= n + 1)%nat) query (start 0%nat [])).
  - simpl. lia.
  - intros s m Hm.
    exists {| numFound := 1; docs := []; nextCursorMark := Some (Endless.mark (S s)) |},
           (S s), (Endless.mark (S s)), [].
    split; [reflexivity|]. split; [reflexivity|]. split; [|split; [reflexivity|]].
    + intros Heq. rewrite <- Heq, mark_length in Hm. lia.
    + rewrite mark_length. lia.
Defined.

(** X12 on three tiles, two to a page: two pages and one more search. *)
Lemma stable_pagination_searches_witness :
  exists result w' evs,
    do_solr_query (StableIndex.solr_search "id" index) "id" Hex.UUID 4 query (start tt []) =
      Ok result w' /\
    trace w' = [] ++ evs /\
    length evs = S (pages_needed 3 2) /\
    Forall (fun e => exists q r, e = EvSearch q r) evs.
Proof.
  apply (stable_pagination_searches "id" index Hex.UUID 2 query 4 (start tt []) [10; 11; 12]).
  - repeat constructor.
  - reflexivity.
  - lia.
  - reflexivity.
  - reflexivity.
  - simpl. lia.
Defined.

(** X13 on the three tiles, two to a page, in a row store where every
    deletion succeeds. *)
Lemma stable_run_deletes_every_match_witness :
  exists query w' pages m,
    let sorted := CommonParams.sort ("id" +:+ " asc") query in
    let final := request sorted m in
    build_query "id" no_json args = inr query /\
    delete_by_query (StableIndex.solr_search "id" index) "id" "sea_surface_temp" Hex.UUID
                    (Cassandra.execute_concurrent_with_args store_ok true) no_json
                    4 args (start tt ["y"; "y"; "n"]) = Ok tt w' /\
    stdin w' = ["n"] /\
    CommonParams.get "q" final = Some [PStr "*:*"] /\
    (forall name, name <> "sort" -> name <> "cursorMark" ->
                  CommonParams.get name final = CommonParams.get name query) /\
    Forall (fun e => exists m', e = EvSearch (request sorted m')
                                             (StableIndex.respond "id" index (request sorted m')))
           pages /\
    last pages = Some (EvSearch final (StableIndex.respond "id" index final)) /\
    fetched pages = index /\
    trace w' =
      []
        ++ [EvSearch query (StableIndex.respond "id" index query);
            EvInput (AskContinue (Z.of_nat (length index)));
            EvLog INFO MsgCollecting]
        ++ pages
        ++ [EvInput (AskDelete (length index));
            EvLog INFO MsgCassandraDelete;
            EvPrepare statement;
            EvExecuteConcurrent statement [10; 11; 12]]
        ++ warnings [(true, ""); (true, ""); (true, "")]
        ++ [EvLog INFO MsgSolrDelete;
            EvSolrDelete final false;
            EvSolrCommit;
            EvLog INFO (MsgDeleted [10; 11; 12])].
Proof.
  apply (stable_run_deletes_every_match
           "id" "sea_surface_temp" index Hex.UUID
           (Cassandra.execute_concurrent_with_args store_ok true) no_json
           4 args "*:*" 2 (start tt ["y"; "y"; "n"]) "y" ["n"] [10; 11; 12]
           [(true, ""); (true, ""); (true, "")]).
  - repeat constructor.
  - discriminate.
  - reflexivity.
  - reflexivity.
  - discriminate.
  - reflexivity.
  - lia.
  - reflexivity.
  - by left.
  - reflexivity.
  - simpl. lia.
Defined.

(** X14 on a result set with a document whose id is no UUID: the answer
    y that waits on the terminal is never read. *)
Lemma stable_run_stops_at_malformed_record_witness :
  exists query e w' searches,
    build_query "id" no_json args = inr query /\
    delete_by_query (StableIndex.solr_search "id" [tileA; broken]) "id" "sea_surface_temp"
                    Hex.UUID fails_on_B no_json 3 args (start tt [""; "y"]) =
      Raised e w' /\
    stdin w' = ["y"] /\
    trace w' =
      []
        ++ [EvSearch query (StableIndex.respond "id" [tileA; broken] query);
            EvInput (AskContinue (Z.of_nat (length [tileA; broken])));
            EvLog INFO MsgCollecting]
        ++ searches /\
    Forall (fun ev => exists q r, ev = EvSearch q r) searches.
Proof.
  apply (stable_run_stops_at_malformed_record
           "id" "sea_surface_temp" [tileA; broken] Hex.UUID fails_on_B no_json
           3 args "*:*" 2 (start tt [""; "y"]) "" ["y"] broken).
  - repeat constructor.
  - rewrite !elem_of_cons. auto.
  - reflexivity.
  - reflexivity.
  - discriminate.
  - reflexivity.
  - lia.
  - reflexivity.
  - by right.
  - simpl. lia.
Defined.

End Runs.
